(** * trader/trading/trading_runtime.py: the [Trader] session object

    A shallow embedding of the [Trader] class: the connection life cycle
    ([connect] under its retry decorator, [connected_event],
    [disconnected_event]), the subscription set-up ([setup_subscriptions]),
    the reconciliation of the "portfolio" universe
    ([update_portfolio_universe]), order entry ([temp_handle_order]) and
    cancellation ([cancel_order]).

    Python's mutable object becomes a record threaded through a state and
    exception monad; a raised exception keeps the mutations made before it,
    as in Python.  Everything the class calls on the brokerage gateway, the
    catalog store and the wall clock is read from one record of oracles,
    [Env], indexed by the logical time of the call. *)

From Stdlib Require Import ZArith Lia Bool List.
From Stdlib Require Import Floats.PrimFloat Floats.SpecFloat Floats.FloatOps.
From Stdlib Require Import Floats.FloatAxioms.
From stdpp Require Import gmap strings list.

Open Scope Z_scope.

(** ** Exceptions and results *)

(** The exceptions the module raises or lets through.  [Suspended] is not a
    Python exception: it marks a coroutine that awaits a value which never
    arrives, so that nothing after the [await] runs. *)
Inductive exn : Set :=
| ConnectionError
| ConnectionRefusedError
| AttributeError
| ZeroDivisionError
| ValueError
| OverflowError
| OtherError (code : Z)
| Suspended.

Definition is_ConnectionRefusedError (e : exn) : bool :=
  match e with ConnectionRefusedError => true | _ => false end.

Definition is_Suspended (e : exn) : bool :=
  match e with Suspended => true | _ => false end.

Inductive outcome (A : Type) : Type :=
| Ok (a : A)
| Raise (e : exn).
Arguments Ok {A} a.
Arguments Raise {A} e.

Definition is_Ok {A} (o : outcome A) : bool :=
  match o with Ok _ => true | Raise _ => false end.

(** ** Gateway and catalog objects *)

(** ib_insync's [Contract]; [conId] is the stable instrument key. *)
Record Contract : Type := {
  conId : Z;
  symbol : string;
  exchange : string
}.

Record PortfolioItem : Type := {
  contract : Contract;
  position : float;
  marketPrice : float;
  account : string
}.

Record Position : Type := {
  pos_account : string;
  pos_contract : Contract;
  pos_position : float
}.

Record ContractDetails : Type := {
  cd_contract : Contract;
  longName : string
}.

(** trader.data.data_access.SecurityDefinition, an entry of a universe. *)
Record SecurityDefinition : Type := {
  sd_conId : Z;
  sd_symbol : string;
  sd_exchange : string;
  sd_longName : string
}.

(** Modelled from the spec: [SecurityDefinition.from_contract_details]
    (trader.data.data_access, not under src/).  An instrument is "produced by
    resolving a raw contract reference against the brokerage's
    reference-data service": the definition carries the fields of the
    contract inside the details it is given. *)
Definition from_contract_details (d : ContractDetails) : SecurityDefinition :=
  {| sd_conId := conId (cd_contract d);
     sd_symbol := symbol (cd_contract d);
     sd_exchange := exchange (cd_contract d);
     sd_longName := longName d |}.

Record Order : Type := {
  orderId : Z;
  clientId : Z;
  action : string;
  totalQuantity : Z;
  lmtPrice : float
}.

Record Trade : Type := {
  tr_contract : Contract;
  order : Order
}.

Record Ticker : Type := {
  tk_contract : Contract;
  bid : float;
  ask : float
}.

Inductive WhatToShow : Set := TRADES | MIDPOINT | BID | ASK.

(** trader.data.market_data.SecurityDataStream as line 227 builds it; the
    date range is kept as the number of trailing days and the zone of its
    end. *)
Record SecurityDataStream : Type := {
  security : option SecurityDefinition;
  bar_size : string;
  date_range_days : Z;
  date_range_zone : string
}.

(** ** The trace of calls and log records *)

Inductive LogRecord : Type :=
| LogDebug (msg : string)
| LogInfo (msg : string)
| LogError (msg : string)
| LogException (ex : exn).

Inductive Event : Type :=
| Log (r : LogRecord)
| NewClient
| UniverseGet (name : string)
| UniverseUpdate (name : string) (defs : list SecurityDefinition)
| ClientConnect
| Sleep (ms : Z)
| BookSubscribe
| SubscribePositions
| SubscribePortfolio
| IbPortfolio
| ReqMarketDataType (mode : Z)
| ReqAllOpenOrders
| BookAsend (o : Trade)
| GetContractDetails (c : Contract)
| SubscribeContractHistory (c : Contract) (days : Z) (what : WhatToShow)
| SubscribeContract (c : Contract) (one_time_snapshot : bool)
| PlaceOrder (c : Contract) (o : Order)
| CancelOrder (o : Order).

(** The events that are calls on the brokerage gateway. *)
Definition is_gateway_call (e : Event) : bool :=
  match e with
  | Log _ | NewClient | UniverseGet _ | UniverseUpdate _ _ | Sleep _
  | BookSubscribe | BookAsend _ => false
  | _ => true
  end.

(** ** Event streams (aioreactive) *)

Inductive notification (A : Type) : Type :=
| OnNext (a : A)
| OnError (e : exn)
| OnCompleted.
Arguments OnNext {A} a.
Arguments OnError {A} e.
Arguments OnCompleted {A}.

(** ** Session state *)

(** Modelled from the spec: [Book] (trader.trading.book, not under src/),
    "the set of all known Orders/Trades for the current session, keyed by
    order id", with the number of times it was attached to the live
    order-lifecycle events. *)
Record Book : Type := {
  book_attached : nat;
  book_trades : gmap Z Trade
}.

(** Modelled from the spec: [Portfolio] (trader.trading.portfolio, not under
    src/), the holdings ledger "fed by position and portfolio-item events";
    the records are kept in arrival order. *)
Record Portfolio : Type := {
  positions : list Position;
  portfolio_items : list PortfolioItem
}.

Record Trader : Type := {
  ib_connected : bool;               (* self.client.ib.isConnected() *)
  client_id_counter : Z;             (* self.client.client_id_counter *)
  universes : gmap string (list SecurityDefinition);  (* self.universes *)
  universe_accessor : gmap string (list SecurityDefinition);
  contract_subscriptions : list (Contract * unit);
  market_data_subscriptions :
    list (option SecurityDefinition * SecurityDataStream);
  book : Book;
  portfolio : Portfolio;
  market_data : Z;
  clock : Z;                         (* wall clock, in milliseconds *)
  events : list Event                (* oldest first *)
}.

(** The oracles: what the gateway, the store and the clock answer.  The
    [nat] is the logical time of the call: the number of calls (events other
    than log records) made before it. *)
Record Env : Type := {
  env_store_connect : nat -> outcome unit;      (* TickData(), UniverseAccessor() *)
  env_client_connect : nat -> outcome unit;     (* IBAIORx.connect *)
  env_client_id : Z;                            (* a fresh client's id counter *)
  env_duration : nat -> Z;                      (* what a connect attempt takes *)
  env_jitter : nat -> Z -> Z;                   (* backoff's random jitter *)
  env_book_subscribe : nat -> outcome unit;
  env_subscribe_positions : nat -> outcome unit;
  env_subscribe_portfolio : nat -> outcome unit;
  env_ib_portfolio : nat -> list PortfolioItem; (* ib.portfolio() *)
  env_open_orders : nat -> outcome (list Trade);(* reqAllOpenOrdersAsync *)
  env_contract_details : nat -> Contract -> outcome (list ContractDetails);
  env_subscribe_history : nat -> Contract -> outcome unit;
  env_ticks : nat -> Contract -> outcome (list (notification Ticker));
  env_place_order : nat -> Contract -> Order -> outcome (list (notification Trade));
  env_cancel_order : nat -> Order -> option Trade;
  env_key_eqb : option SecurityDefinition -> option SecurityDefinition -> bool;
                                                (* dict key comparison *)
  env_round2 : float -> float                   (* round(x, ndigits=2) *)
}.

(** Field updates. *)
Definition with_ib_connected (b : bool) (t : Trader) : Trader :=
  {| ib_connected := b; client_id_counter := client_id_counter t;
     universes := universes t;
     universe_accessor := universe_accessor t;
     contract_subscriptions := contract_subscriptions t;
     market_data_subscriptions := market_data_subscriptions t;
     book := book t; portfolio := portfolio t; market_data := market_data t;
     clock := clock t; events := events t |}.

Definition with_client (id : Z) (t : Trader) : Trader :=
  {| ib_connected := false; client_id_counter := id;
     universes := universes t;
     universe_accessor := universe_accessor t;
     contract_subscriptions := contract_subscriptions t;
     market_data_subscriptions := market_data_subscriptions t;
     book := book t; portfolio := portfolio t; market_data := market_data t;
     clock := clock t; events := events t |}.

Definition with_universes
    (u : gmap string (list SecurityDefinition)) (t : Trader) : Trader :=
  {| ib_connected := ib_connected t; client_id_counter := client_id_counter t;
     universes := u;
     universe_accessor := universe_accessor t;
     contract_subscriptions := contract_subscriptions t;
     market_data_subscriptions := market_data_subscriptions t;
     book := book t; portfolio := portfolio t; market_data := market_data t;
     clock := clock t; events := events t |}.

Definition with_universe_accessor
    (u : gmap string (list SecurityDefinition)) (t : Trader) : Trader :=
  {| ib_connected := ib_connected t; client_id_counter := client_id_counter t;
     universes := universes t;
     universe_accessor := u;
     contract_subscriptions := contract_subscriptions t;
     market_data_subscriptions := market_data_subscriptions t;
     book := book t; portfolio := portfolio t; market_data := market_data t;
     clock := clock t; events := events t |}.

Definition with_contract_subscriptions
    (s : list (Contract * unit)) (t : Trader) : Trader :=
  {| ib_connected := ib_connected t; client_id_counter := client_id_counter t;
     universes := universes t;
     universe_accessor := universe_accessor t;
     contract_subscriptions := s;
     market_data_subscriptions := market_data_subscriptions t;
     book := book t; portfolio := portfolio t; market_data := market_data t;
     clock := clock t; events := events t |}.

Definition with_market_data_subscriptions
    (s : list (option SecurityDefinition * SecurityDataStream)) (t : Trader)
    : Trader :=
  {| ib_connected := ib_connected t; client_id_counter := client_id_counter t;
     universes := universes t;
     universe_accessor := universe_accessor t;
     contract_subscriptions := contract_subscriptions t;
     market_data_subscriptions := s;
     book := book t; portfolio := portfolio t; market_data := market_data t;
     clock := clock t; events := events t |}.

Definition with_book (b : Book) (t : Trader) : Trader :=
  {| ib_connected := ib_connected t; client_id_counter := client_id_counter t;
     universes := universes t;
     universe_accessor := universe_accessor t;
     contract_subscriptions := contract_subscriptions t;
     market_data_subscriptions := market_data_subscriptions t;
     book := b; portfolio := portfolio t; market_data := market_data t;
     clock := clock t; events := events t |}.

Definition with_portfolio (p : Portfolio) (t : Trader) : Trader :=
  {| ib_connected := ib_connected t; client_id_counter := client_id_counter t;
     universes := universes t;
     universe_accessor := universe_accessor t;
     contract_subscriptions := contract_subscriptions t;
     market_data_subscriptions := market_data_subscriptions t;
     book := book t; portfolio := p; market_data := market_data t;
     clock := clock t; events := events t |}.

Definition with_clock (c : Z) (t : Trader) : Trader :=
  {| ib_connected := ib_connected t; client_id_counter := client_id_counter t;
     universes := universes t;
     universe_accessor := universe_accessor t;
     contract_subscriptions := contract_subscriptions t;
     market_data_subscriptions := market_data_subscriptions t;
     book := book t; portfolio := portfolio t; market_data := market_data t;
     clock := c; events := events t |}.

Definition with_events (ev : list Event) (t : Trader) : Trader :=
  {| ib_connected := ib_connected t; client_id_counter := client_id_counter t;
     universes := universes t;
     universe_accessor := universe_accessor t;
     contract_subscriptions := contract_subscriptions t;
     market_data_subscriptions := market_data_subscriptions t;
     book := book t; portfolio := portfolio t; market_data := market_data t;
     clock := clock t; events := ev |}.

(** ** The state and exception monad *)

Definition M (A : Type) : Type := Trader -> outcome A * Trader.

Definition ret {A} (a : A) : M A := fun t => (Ok a, t).

Definition raise {A} (e : exn) : M A := fun t => (Raise e, t).

Definition bind {A B} (m : M A) (k : A -> M B) : M B :=
  fun t =>
    match m t with
    | (Ok a, t') => k a t'
    | (Raise e, t') => (Raise e, t')
    end.

Declare Scope trader_scope.
Delimit Scope trader_scope with trader.
Notation "'do' x <- c ; k" := (bind c (fun x => k))
  (at level 10, x name, c at level 100, k at level 200) : trader_scope.
Open Scope trader_scope.

(** Reads an attribute of the session. *)
Definition gets {A} (f : Trader -> A) : M A := fun t => (Ok (f t), t).

Definition modify (f : Trader -> Trader) : M unit := fun t => (Ok tt, f t).

(** Appends one event to the trace. *)
Definition emit (e : Event) : M unit :=
  modify (fun t => with_events (events t ++ [e]) t).

Definition is_log (e : Event) : bool :=
  match e with Log _ => true | _ => false end.

(** The logical time of the next call: the number of calls made so far.
    Log records do not count, the gateway does not see them. *)
Definition calls (ev : list Event) : nat :=
  length (List.filter (fun e => negb (is_log e)) ev).

Definition now : M nat := fun t => (Ok (calls (events t)), t).

Definition lift {A} (o : outcome A) : M A := fun t => (o, t).

(** [try: m except Exception as ex: h ex].  A suspended coroutine is not an
    exception and is not caught. *)
Definition try_except {A} (m : M A) (h : exn -> M A) : M A :=
  fun t =>
    match m t with
    | (Ok a, t') => (Ok a, t')
    | (Raise e, t') => if is_Suspended e then (Raise e, t') else h e t'
    end.

(** [for x in l: body x]. *)
Fixpoint for_each {A} (l : list A) (body : A -> M unit) : M unit :=
  match l with
  | [] => ret tt
  | x :: l' => do _ <- body x; for_each l' body
  end.

Definition logging (r : LogRecord) : M unit := emit (Log r).

(** ** Helpers of the repository that the module imports *)

(** Modelled from the spec: [ListHelper.isin] (trader.common.helpers, not
    under src/), the "membership scan": true as soon as one element
    satisfies the predicate, false when none does.  The predicate is a Python
    lambda and may raise. *)
Fixpoint isin {A} (list_of : list A) (func : A -> outcome bool) : outcome bool :=
  match list_of with
  | [] => Ok false
  | item :: rest =>
      match func item with
      | Ok true => Ok true
      | Ok false => isin rest func
      | Raise e => Raise e
      end
  end.

(** Modelled from the spec: [Universe.find_contract] (trader.data.universe,
    not under src/): the universe's entry "matched by stable key", or [None];
    line 222 casts its optional result. *)
Definition find_contract (security_definitions : list SecurityDefinition)
    (c : Contract) : option SecurityDefinition :=
  List.find (fun definition => sd_conId definition =? conId c)
            security_definitions.

(** [d[key] = value] on a Python dict kept in insertion order: the value of
    an equal key is replaced, a new key goes last. *)
Fixpoint dict_set {K V} (key_eqb : K -> K -> bool) (key : K) (value : V)
    (d : list (K * V)) : list (K * V) :=
  match d with
  | [] => [(key, value)]
  | (k, v) :: rest =>
      if key_eqb k key then (k, value) :: rest
      else (k, v) :: dict_set key_eqb key value rest
  end.

(** [list(d.keys())]. *)
Definition keys {K V} (d : list (K * V)) : list K := map fst d.

(** [definition.conId == portfolio_item.contract.conId] (line 205). *)
Definition definition_matches (portfolio_item : PortfolioItem)
    (definition : SecurityDefinition) : outcome bool :=
  Ok (sd_conId definition =? conId (contract portfolio_item)).

(** [subscription.conId == portfolio_item.contract.conId] (line 219) on a
    key of [market_data_subscriptions]; the attribute access fails on
    [None]. *)
Definition subscription_matches (portfolio_item : PortfolioItem)
    (subscription : option SecurityDefinition) : outcome bool :=
  match subscription with
  | Some s => Ok (sd_conId s =? conId (contract portfolio_item))
  | None => Raise AttributeError
  end.

(** ** The catalog store *)

Definition portfolio_name : string := "portfolio".

(** Modelled from the spec: [UniverseAccessor.get] and [.update]
    (trader.data.universe, not under src/), "a simple load/replace key-value
    interface keyed by universe name". *)
Definition universe_accessor_get (name : string) : M (list SecurityDefinition) :=
  do _ <- emit (UniverseGet name);
  gets (fun t => default [] (universe_accessor t !! name)).

Definition universe_accessor_update (name : string)
    (security_definitions : list SecurityDefinition) : M unit :=
  do _ <- emit (UniverseUpdate name security_definitions);
  modify (fun t =>
    with_universe_accessor (<[name := security_definitions]> (universe_accessor t)) t).

(** Lines 192-196. *)
Definition clear_portfolio_universe : M unit :=
  do _ <- logging (LogDebug "clearing portfolio universe");
  do _universe <- universe_accessor_get portfolio_name;
  universe_accessor_update portfolio_name [].

(** ** Reconciliation of the portfolio universe *)

(** Lines 198-239. *)
Definition update_portfolio_universe (env : Env) (portfolio_item : PortfolioItem)
    : M unit :=
  do security_definitions <- universe_accessor_get portfolio_name;
  do present <- lift (isin security_definitions (definition_matches portfolio_item));
  if negb present then
    let contract := contract portfolio_item in
    do n <- now;
    do _ <- emit (GetContractDetails contract);
    do contract_details <- lift (env_contract_details env n contract);
    let security_definitions :=
      match contract_details with
      | d :: _ => security_definitions ++ [from_contract_details d]
      | [] => security_definitions
      end in
    do _ <- logging (LogDebug "updating portfolio universe");
    do _ <- universe_accessor_update portfolio_name security_definitions;
    do subscriptions <- gets (fun t => keys (market_data_subscriptions t));
    do subscribed <- lift (isin subscriptions
                                (subscription_matches portfolio_item));
    if negb subscribed then
      do _ <- logging (LogDebug "subscribing to market data stream for portfolio item");
      let security := find_contract security_definitions contract in
      let security_stream :=
        {| security := security; bar_size := "1 min";
           date_range_days := 30; date_range_zone := "America/New_York" |} in
      do n <- now;
      do _ <- emit (SubscribeContractHistory contract 30 TRADES);
      do _ <- lift (env_subscribe_history env n contract);
      modify (fun t =>
        with_market_data_subscriptions
          (dict_set (env_key_eqb env) security security_stream
                    (market_data_subscriptions t)) t)
    else ret tt
  else ret tt.

(** Modelled from the spec: [Portfolio.add_position] and
    [Portfolio.add_portfolio_item] (trader.trading.portfolio, not under
    src/), the ledger's "position-update" and "item-update" operations. *)
Definition add_position (p : Position) : M unit :=
  modify (fun t =>
    with_portfolio {| positions := positions (portfolio t) ++ [p];
                      portfolio_items := portfolio_items (portfolio t) |} t).

Definition add_portfolio_item (p : PortfolioItem) : M unit :=
  modify (fun t =>
    with_portfolio {| positions := positions (portfolio t);
                      portfolio_items := portfolio_items (portfolio t) ++ [p] |} t).

(** Lines 131-134. *)
Definition update_positions (positions : list Position) : M unit :=
  do _ <- logging (LogDebug "__update_positions");
  for_each positions add_position.

(** Lines 136-139. *)
Definition update_portfolio (env : Env) (portfolio_item : PortfolioItem) : M unit :=
  do _ <- logging (LogDebug "__update_portfolio");
  do _ <- add_portfolio_item portfolio_item;
  update_portfolio_universe env portfolio_item.

(** ** Local variables of [setup_subscriptions] and its nested handler *)

(** The local variables of one activation of a function. *)
Definition frame : Type := gmap string bool.

(** Python's scoping rule for an assignment [x = v] in the body of a nested
    function: the name is local to the nested function unless the body
    declares it [nonlocal], and only then is the enclosing function's
    variable written.  Returns the enclosing and the nested frame. *)
Definition assign_nested (nonlocal_names : list string) (x : string) (v : bool)
    (enclosing nested : frame) : frame * frame :=
  if bool_decide (x ∈ nonlocal_names)
  then (<[x := v]> enclosing, nested)
  else (enclosing, <[x := v]> nested).

(** Lines 147-149: the handler logs the exception and assigns [error]; its
    body has no [nonlocal] declaration.  The result is the enclosing
    function's frame after the call. *)
Definition handle_subscription_exception (ex : exn) (enclosing : frame) : M frame :=
  do _ <- logging (LogException ex);
  ret (fst (assign_nested [] "error" true enclosing ∅)).

(** aioreactive's [anoop], the handler an observer has when none is given. *)
Definition anoop (ex : exn) (enclosing : frame) : M frame := ret enclosing.

(** Modelled from the spec: [AsyncCachedObserver.asend]
    (trader.common.reactive, not under src/) of an observer built with
    [capture_asend_exception=True]: an error of the callback is handed to
    [athrow] and "abort[s] only that item". *)
Definition cached_observer_asend {A} (asend : A -> M unit)
    (athrow : exn -> frame -> M frame) (capture_asend_exception : bool)
    (enclosing : frame) (value : A) : M frame :=
  if capture_asend_exception
  then try_except (do _ <- asend value; ret enclosing)
                  (fun ex => athrow ex enclosing)
  else do _ <- asend value; ret enclosing.

(** [for x in l], threading the enclosing frame through the deliveries. *)
Fixpoint for_each_frame {A} (l : list A) (body : frame -> A -> M frame)
    (fr : frame) : M frame :=
  match l with
  | [] => ret fr
  | x :: l' => do fr' <- body fr x; for_each_frame l' body fr'
  end.

(** ** Subscription set-up *)

(** Modelled from the spec: [Book.subscribe_to_eventkit_event] and
    [Book.asend] (trader.trading.book, not under src/): the Book attaches to
    the live order events, and a replayed or streamed trade is stored under
    its order id. *)
Definition book_subscribe_to_eventkit_event (env : Env) : M unit :=
  do n <- now;
  do _ <- emit BookSubscribe;
  do _ <- lift (env_book_subscribe env n);
  modify (fun t =>
    with_book {| book_attached := S (book_attached (book t));
                 book_trades := book_trades (book t) |} t).

Definition book_asend (o : Trade) : M unit :=
  do _ <- emit (BookAsend o);
  modify (fun t =>
    with_book {| book_attached := book_attached (book t);
                 book_trades := <[orderId (order o) := o]> (book_trades (book t)) |} t).

(** Modelled from the spec: [Book.get_order], the lookup by order id. *)
Definition book_get_order (b : Book) (order_id : Z) : option Order :=
  order <$> (book_trades b !! order_id).

(** Lines 322-323. *)
Definition is_ib_connected : M bool := gets ib_connected.

(** Lines 162-182, what [setup_subscriptions] does once the Book is
    attached, with the handler the observers are given as a parameter; the
    result is the function's frame of local variables when it returns. *)
Definition subscribe_and_replay (athrow : exn -> frame -> M frame)
    (env : Env) (locals : frame) : M frame :=
  do n <- now;
  do _ <- emit SubscribePositions;
  do _ <- lift (env_subscribe_positions env n);
  do n <- now;
  do _ <- emit SubscribePortfolio;
  do _ <- lift (env_subscribe_portfolio env n);
  do n <- now;
  do _ <- emit IbPortfolio;
  do locals <- for_each_frame (env_ib_portfolio env n)
                 (cached_observer_asend (update_portfolio env) athrow true)
                 locals;
  do mode <- gets market_data;
  do _ <- emit (ReqMarketDataType mode);
  do n <- now;
  do _ <- emit ReqAllOpenOrders;
  do orders <- lift (env_open_orders env n);
  do _ <- for_each orders book_asend;
  ret locals.

(** Lines 141-160, then the rest. *)
Definition setup_subscriptions_with (athrow : exn -> frame -> M frame)
    (env : Env) : M frame :=
  do connected <- is_ib_connected;
  if negb connected then raise ConnectionError
  else
    let locals : frame := {["error" := false]} in
    do _ <- book_subscribe_to_eventkit_event env;
    subscribe_and_replay athrow env locals.

Definition setup_subscriptions_frame (env : Env) : M frame :=
  setup_subscriptions_with handle_subscription_exception env.

(** [setup_subscriptions] as a caller sees it: it returns [None]. *)
Definition setup_subscriptions (env : Env) : M unit :=
  do _locals <- setup_subscriptions_frame env; ret tt.

(** What the position and portfolio streams do with a value that arrives
    after set-up (lines 163-170); the closure keeps the frame. *)
Definition on_positions (locals : frame) (batch : list Position) : M frame :=
  cached_observer_asend update_positions handle_subscription_exception true
                        locals batch.

Definition on_portfolio_item (env : Env) (locals : frame) (p : PortfolioItem)
    : M frame :=
  cached_observer_asend (update_portfolio env) handle_subscription_exception true
                        locals p.

(** A sequence of portfolio items arriving on the stream. *)
Definition feed_portfolio_items (env : Env) (items : list PortfolioItem)
    (locals : frame) : M frame :=
  for_each_frame items (on_portfolio_item env) locals.

(** Lines 184-186. *)
Definition connected_event (env : Env) : M unit :=
  do _ <- logging (LogDebug "connected_event");
  setup_subscriptions env.

(** ** The object before its first [connect] *)

(** The arguments of the constructor, lines 72-81. *)
Record Settings : Type := {
  ib_server_address : string;
  ib_server_port : Z;
  arctic_server_address : string;
  arctic_library : string;
  arctic_universe_library : string;
  redis_server_address : string;
  redis_server_port : string;
  paper_trading : bool;
  simulation : bool
}.

(** What [__init__] binds, lines 82-112.  Lines 94-96, 109 and 111 are
    annotations without a value: [self.client], [self.data],
    [self.universe_accessor], [self.executioner] and [self.universes] are not
    attributes of the object until [connect] assigns them. *)
Record Constructed : Type := {
  settings : Settings;
  init_contract_subscriptions : list (Contract * unit);
  init_market_data_subscriptions :
    list (option SecurityDefinition * SecurityDataStream);
  init_strategies : list unit;
  init_book : Book;
  init_portfolio : Portfolio;
  init_market_data : Z
}.

(** Lines 72-112. *)
Definition Trader_init (s : Settings) : Constructed :=
  {| settings := s;
     init_contract_subscriptions := [];
     init_market_data_subscriptions := [];
     init_strategies := [];
     init_book := {| book_attached := 0; book_trades := ∅ |};
     init_portfolio := {| positions := []; portfolio_items := [] |};
     init_market_data := 3 |}.

(** A [Trader] object: as the constructor left it, or with the client and
    the catalog a [connect] has bound. *)
Inductive Session : Type :=
| NoClient (c : Constructed)
| WithClient (t : Trader).

(** [self.client]: reading an attribute that is not bound raises
    [AttributeError]. *)
Definition self_client (s : Session) : outcome Trader :=
  match s with
  | NoClient _ => Raise AttributeError
  | WithClient t => Ok t
  end.

(** Lines 322-323 on any object. *)
Definition session_is_ib_connected (s : Session) : outcome bool :=
  match self_client s with
  | Ok t => Ok (ib_connected t)
  | Raise e => Raise e
  end.

(** Lines 141-182 on any object: the test of line 142 reads [self.client]
    (line 323) before anything else is done. *)
Definition session_setup_subscriptions (env : Env) (s : Session)
    : outcome unit * Session :=
  match session_is_ib_connected s with
  | Raise e => (Raise e, s)
  | Ok _ =>
      match s with
      | NoClient _ => (Raise AttributeError, s)
      | WithClient t =>
          let r := setup_subscriptions env t in (fst r, WithClient (snd r))
      end
  end.

(** ** Connection *)

(** The body of [connect], lines 116-125: one connection attempt. *)
Definition connect_body (env : Env) : M unit :=
  do _ <- emit NewClient;
  do _ <- modify (with_client (env_client_id env));
  do n <- now;
  do _ <- lift (env_store_connect env n);
  do _ <- modify (fun t => with_universes (universe_accessor t) t);
  do _ <- clear_portfolio_universe;
  do _ <- modify (with_contract_subscriptions []);
  do _ <- modify (with_market_data_subscriptions []);
  do n <- now;
  do _ <- emit ClientConnect;
  do _ <- modify (fun t => with_clock (clock t + Z.max 0 (env_duration env n)) t);
  do _ <- lift (env_client_connect env n);
  modify (with_ib_connected true).

(** The arguments of the decorator on line 114; times in milliseconds. *)
Definition max_tries : nat := 10.
Definition max_time : Z := 120000.

(** [backoff.expo]: the wait before retry [n + 1] is [2 ^ n] seconds. *)
Definition expo (n : nat) : Z := 1000 * 2 ^ Z.of_nat n.

(** backoff's full jitter: a random wait between nothing and the value. *)
Definition full_jitter (env : Env) (n : nat) (value : Z) : Z :=
  Z.max 0 (Z.min value (env_jitter env n value)).

Definition sleep (ms : Z) (t : Trader) : Trader :=
  with_clock (clock t + ms) (with_events (events t ++ [Sleep ms]) t).

(** Modelled from the spec: the decorator [backoff.on_exception(backoff.expo,
    ConnectionRefusedError, max_tries, max_time)] (package backoff, not
    under src/): "on failure classified as a transient connection refusal,
    retries with exponential backoff (bounded attempt count and bounded total
    elapsed time); other failures are fatal and surfaced to the caller".
    [remaining] is [max_tries - tries]; the elapsed time is read before the
    attempt, and a wait never goes past the time budget. *)
Fixpoint retry_exception (env : Env) (target : Env -> M unit)
    (remaining tries : nat) (start : Z) (t : Trader) : outcome unit * Trader :=
  let elapsed := clock t - start in
  match target env t with
  | (Ok r, t') => (Ok r, t')
  | (Raise e, t') =>
      if is_ConnectionRefusedError e then
        match remaining with
        | O => (Raise e, t')
        | S remaining' =>
            if max_time <=? elapsed then (Raise e, t')
            else
              let seconds :=
                Z.min (full_jitter env (calls (events t')) (expo (tries - 1)))
                      (max_time - elapsed) in
              retry_exception env target remaining' (S tries) start
                              (sleep seconds t')
        end
      else (Raise e, t')
  end.

(** [connect] as decorated, lines 114-125. *)
Definition connect (env : Env) : M unit :=
  fun t => retry_exception env connect_body (max_tries - 1) 1 (clock t) t.

(** Lines 188-190. *)
Definition disconnected_event (env : Env) : M unit :=
  do _ <- logging (LogDebug "disconnected_event");
  connect env.

(** A start of the session: [connect], then the link's connected event. *)
Definition startup (env : Env) : M unit :=
  do _ <- connect env;
  connected_event env.

(** ** Cancellation *)

Definition cancel_refused : string :=
  "either order does not exist, or originating client_id is different".

(** Lines 310-320. *)
Definition cancel_order (env : Env) (order_id : Z) : M (option Trade) :=
  do order <- gets (fun t => book_get_order (book t) order_id);
  do client_id <- gets client_id_counter;
  match order with
  | Some order =>
      if clientId order =? client_id then
        do _ <- logging (LogInfo "cancelling order");
        do n <- now;
        do _ <- emit (CancelOrder order);
        ret (env_cancel_order env n order)
      else
        do _ <- logging (LogError cancel_refused);
        ret None
  | None =>
      do _ <- logging (LogError cancel_refused);
      ret None
  end.

(** ** Order entry *)

Inductive Action : Set := BUY | SELL.

(** Lines 66-68. *)
Definition Action_str (a : Action) : string :=
  match a with BUY => "BUY" | SELL => "SELL" end.

Definition Action_eqb (a b : Action) : bool :=
  match a, b with BUY, BUY | SELL, SELL => true | _, _ => false end.

(** The integer nearest to [m * 2 ^ e], a tie going to the even one. *)
Definition round_half_even (m e : Z) : Z :=
  if 0 <=? e then m * 2 ^ e
  else
    let d := 2 ^ (- e) in
    let q := m / d in
    let r := m mod d in
    match (2 * r ?= d) with
    | Lt => q
    | Gt => q + 1
    | Eq => if Z.even q then q else q + 1
    end.

(** Python's [round(x)] of a float: an int, ties to even; it raises on a
    NaN and on an infinity. *)
Definition py_round (x : float) : outcome Z :=
  match Prim2SF x with
  | S754_nan => Raise ValueError
  | S754_infinity _ => Raise OverflowError
  | S754_zero _ => Ok 0
  | S754_finite s m e =>
      let n := round_half_even (Z.pos m) e in
      Ok (if s then - n else n)
  end.

(** Python's [a / b] on floats. *)
Definition py_truediv (a b : float) : outcome float :=
  if PrimFloat.eqb b 0%float then Raise ZeroDivisionError
  else Ok (PrimFloat.div a b).

(** Lines 286-292: the quantity of the order. *)
Definition order_quantity (equity_amount latest_bid : float) : outcome Z :=
  match py_truediv equity_amount latest_bid with
  | Raise e => Raise e
  | Ok quantity =>
      let quantity :=
        if PrimFloat.ltb quantity 1%float && PrimFloat.ltb 0%float quantity
        then 1%float else quantity in
      py_round quantity
  end.

(** aioreactive's [take]: the first [n] values of a stream, then its end. *)
Fixpoint take {A} (n : nat) (xs : list (notification A)) : list (notification A) :=
  match n with
  | O => [OnCompleted]
  | S n' =>
      match xs with
      | [] => []
      | OnNext a :: rest => OnNext a :: take n' rest
      | OnError e :: _ => [OnError e]
      | OnCompleted :: _ => [OnCompleted]
      end
  end.

(** The values a stream hands to its observer. *)
Fixpoint values {A} (xs : list (notification A)) : list A :=
  match xs with
  | OnNext a :: rest => a :: values rest
  | _ => []
  end.

(** Modelled from the spec: [AsyncCachedObserver.wait_value]
    (trader.common.reactive, not under src/) called on a fresh observer of
    the stream: it "suspends the caller until a value has been received" and
    "fails with a propagated-error result if the upstream stream fails". *)
Definition wait_value {A} (xs : list (notification A)) : outcome A :=
  match xs with
  | OnNext a :: _ => Ok a
  | OnError e :: _ => Raise e
  | _ => Raise Suspended
  end.

(** ib_insync's [LimitOrder(action, totalQuantity, lmtPrice)]. *)
Definition LimitOrder (action : string) (totalQuantity : Z) (lmtPrice : float)
    : Order :=
  {| orderId := 0; clientId := 0; action := action;
     totalQuantity := totalQuantity; lmtPrice := lmtPrice |}.

(** Lines 241-259; the result stands for the observer, by the trade stream
    it is bound to. *)
Definition temp_place_order (env : Env) (contract : Contract) (order : Order)
    : M (list (notification Trade)) :=
  do n <- now;
  do _ <- emit (PlaceOrder contract order);
  lift (env_place_order env n contract order).

(** 0.9 and 1.1 as Python reads them. *)
Definition f0_9 : float := 0x1.ccccccccccccdp-1%float.
Definition f1_1 : float := 0x1.199999999999ap+0%float.

(** Lines 272-281: the request of one snapshot, the stream cut to one
    value, a new observer subscribed to it, and the wait for its value.  The
    result pairs the values the observer was sent with the value the wait
    returned. *)
Definition price_snapshot (env : Env) (contract : Contract)
    : M (list Ticker * Ticker) :=
  do n <- now;
  do _ <- emit (SubscribeContract contract true);
  do subject <- lift (env_ticks env n contract);
  let xs := take 1 subject in
  let observer := values xs in
  do latest_tick <- lift (wait_value xs);
  ret (observer, latest_tick).

(** Lines 261-308. *)
Definition temp_handle_order (env : Env) (contract : Contract) (action : Action)
    (equity_amount : float) (delayed debug : bool)
    : M (list (notification Trade)) :=
  do snapshot <- price_snapshot env contract;
  let latest_tick := snd snapshot in
  do quantity_int <- lift (order_quantity equity_amount (bid latest_tick));
  do _ <- logging (LogDebug "temp_handle_order assessed quantity");
  let limit_price := bid latest_tick in
  let limit_price :=
    if debug && Action_eqb action BUY
    then env_round2 env (PrimFloat.mul (PrimFloat.mul limit_price f0_9) f0_9)
    else limit_price in
  let limit_price :=
    if debug && Action_eqb action SELL
    then env_round2 env (PrimFloat.mul limit_price f1_1)
    else limit_price in
  let order := LimitOrder (Action_str action) quantity_int limit_price in
  temp_place_order env contract order.

(** The order a run of [temp_handle_order] placed: the last [PlaceOrder]
    of the trace. *)
Definition placed_orders (ev : list Event) : list Order :=
  omap (fun e => match e with PlaceOrder _ o => Some o | _ => None end) ev.

(** ** What the properties speak of *)

(** The entries of the persisted "portfolio" universe. *)
Definition portfolio_universe (t : Trader) : list SecurityDefinition :=
  default [] (universe_accessor t !! portfolio_name).

(** The stable keys of the universe's entries and of the subscriptions. *)
Definition universe_conIds (t : Trader) : list Z :=
  map sd_conId (portfolio_universe t).

Definition subscription_conIds (t : Trader) : list Z :=
  omap (fmap sd_conId) (keys (market_data_subscriptions t)).

Definition at_most_one_per_key (ids : list Z) : Prop :=
  forall c : Z, (count_occ Z.eq_dec ids c <= 1)%nat.

Definition consistent (t : Trader) : Prop :=
  at_most_one_per_key (universe_conIds t) /\
  at_most_one_per_key (subscription_conIds t).

(** A gateway that resolves a contract to details of that very contract. *)
Definition resolves_faithfully (env : Env) : Prop :=
  forall n c d rest,
    env_contract_details env n c = Ok (d :: rest) ->
    conId (cd_contract d) = conId c.

(** The calls on the gateway among the events. *)
Definition gateway_calls (ev : list Event) : list Event :=
  List.filter is_gateway_call ev.

(** The session apart from its trace. *)
Definition same_attributes (t1 t2 : Trader) : Prop :=
  with_events [] t1 = with_events [] t2.

(** The replay of the open orders into the Book: the fetch and each
    [book.asend]. *)
Definition is_replay (e : Event) : bool :=
  match e with ReqAllOpenOrders | BookAsend _ => true | _ => false end.

Definition is_connect_attempt (e : Event) : bool :=
  match e with ClientConnect => true | _ => false end.

Definition attempts (ev : list Event) : nat :=
  length (List.filter is_connect_attempt ev).

(** The attempts begun: each run of the body of [connect] starts with a new
    client (line 116). *)
Definition is_new_client (e : Event) : bool :=
  match e with NewClient => true | _ => false end.

Definition started (ev : list Event) : nat :=
  length (List.filter is_new_client ev).


Definition is_exception_log (e : Event) : bool :=
  match e with Log (LogException _) => true | _ => false end.

(** The trace without the records the exception handler writes. *)
Definition without_exception_log (ev : list Event) : list Event :=
  List.filter (fun e => negb (is_exception_log e)) ev.

(** ** Sample data *)

Module Sample.

Definition aapl : Contract := {| conId := 265598; symbol := "AAPL"; exchange := "SMART" |}.
Definition msft : Contract := {| conId := 272093; symbol := "MSFT"; exchange := "SMART" |}.
(** A second gateway object for the instrument of [aapl]. *)
Definition aapl' : Contract := {| conId := 265598; symbol := "AAPL"; exchange := "NASDAQ" |}.

Definition item (c : Contract) (pos : float) : PortfolioItem :=
  {| contract := c; position := pos; marketPrice := 100%float; account := "DU1" |}.

Definition key_eqb (a b : option SecurityDefinition) : bool :=
  match a, b with
  | None, None => true
  | Some x, Some y =>
      (sd_conId x =? sd_conId y) && String.eqb (sd_symbol x) (sd_symbol y)
      && String.eqb (sd_exchange x) (sd_exchange y)
      && String.eqb (sd_longName x) (sd_longName y)
  | _, _ => false
  end.

Definition details (c : Contract) : ContractDetails :=
  {| cd_contract := c; longName := "" |}.

Definition tick (c : Contract) (b : float) : Ticker :=
  {| tk_contract := c; bid := b; ask := b |}.

Definition an_order (id client : Z) : Order :=
  {| orderId := id; clientId := client; action := "BUY";
     totalQuantity := 1; lmtPrice := 100%float |}.

Definition a_trade (id client : Z) : Trade :=
  {| tr_contract := aapl; order := an_order id client |}.

(** A gateway that accepts the connection, holds [aapl], [msft] and [aapl']
    and resolves every contract. *)
Definition gateway : Env :=
  {| env_store_connect := fun _ => Ok tt;
     env_client_connect := fun _ => Ok tt;
     env_client_id := 7;
     env_duration := fun _ => 10;
     env_jitter := fun _ v => v;
     env_book_subscribe := fun _ => Ok tt;
     env_subscribe_positions := fun _ => Ok tt;
     env_subscribe_portfolio := fun _ => Ok tt;
     env_ib_portfolio := fun _ => [item aapl 1; item msft 2; item aapl' 3];
     env_open_orders := fun _ => Ok [a_trade 11 7];
     env_contract_details := fun _ c => Ok [details c];
     env_subscribe_history := fun _ _ => Ok tt;
     env_ticks := fun _ c => Ok [OnNext (tick c 100); OnNext (tick c 101)];
     env_place_order := fun _ _ _ => Ok [];
     env_cancel_order := fun _ o => Some {| tr_contract := aapl; order := o |};
     env_key_eqb := key_eqb;
     env_round2 := fun x => x |}.

(** The same gateway, refusing every connection. *)
Definition refusing : Env :=
  {| env_store_connect := fun _ => Ok tt;
     env_client_connect := fun _ => Raise ConnectionRefusedError;
     env_client_id := 7;
     env_duration := fun _ => 10;
     env_jitter := fun _ v => v;
     env_book_subscribe := fun _ => Ok tt;
     env_subscribe_positions := fun _ => Ok tt;
     env_subscribe_portfolio := fun _ => Ok tt;
     env_ib_portfolio := fun _ => [];
     env_open_orders := fun _ => Ok [];
     env_contract_details := fun _ c => Ok [details c];
     env_subscribe_history := fun _ _ => Ok tt;
     env_ticks := fun _ c => Ok [];
     env_place_order := fun _ _ _ => Ok [];
     env_cancel_order := fun _ _ => None;
     env_key_eqb := key_eqb;
     env_round2 := fun x => x |}.

(** The same gateway, with no details for [aapl]. *)
Definition unresolved_aapl : Env :=
  {| env_store_connect := fun _ => Ok tt;
     env_client_connect := fun _ => Ok tt;
     env_client_id := 7;
     env_duration := fun _ => 10;
     env_jitter := fun _ v => v;
     env_book_subscribe := fun _ => Ok tt;
     env_subscribe_positions := fun _ => Ok tt;
     env_subscribe_portfolio := fun _ => Ok tt;
     env_ib_portfolio := fun _ => [item aapl 1; item msft 2];
     env_open_orders := fun _ => Ok [];
     env_contract_details :=
       fun _ c => if conId c =? conId aapl then Ok [] else Ok [details c];
     env_subscribe_history := fun _ _ => Ok tt;
     env_ticks := fun _ c => Ok [];
     env_place_order := fun _ _ _ => Ok [];
     env_cancel_order := fun _ _ => None;
     env_key_eqb := key_eqb;
     env_round2 := fun x => x |}.

(** The constructor's arguments of a paper-trading set-up on one host. *)
Definition settings : Settings :=
  {| ib_server_address := "127.0.0.1"; ib_server_port := 7496;
     arctic_server_address := "127.0.0.1"; arctic_library := "Historical";
     arctic_universe_library := "Universes";
     redis_server_address := "127.0.0.1"; redis_server_port := "6379";
     paper_trading := true; simulation := false |}.

(** A session whose client exists and is down, with an empty store, an
    empty Book and an empty Portfolio.  It is not the object of
    [Trader_init], which has no client yet; it is what the first [connect]
    of that object works on, since lines 116-122 assign the client, the
    catalog and both maps before anything reads them. *)
Definition fresh : Trader :=
  {| ib_connected := false; client_id_counter := 0;
     universes := ∅; universe_accessor := ∅;
     contract_subscriptions := []; market_data_subscriptions := [];
     book := {| book_attached := 0; book_trades := ∅ |};
     portfolio := {| positions := []; portfolio_items := [] |};
     market_data := 3; clock := 0; events := [] |}.

(** A connected session whose Book holds order 11 of this session and
    order 12 of client 9, and whose store kept an entry of an earlier
    session. *)
Definition connected : Trader :=
  {| ib_connected := true; client_id_counter := 7;
     universes := ∅;
     universe_accessor := {[ portfolio_name := [from_contract_details (details msft)] ]};
     contract_subscriptions := []; market_data_subscriptions := [];
     book := {| book_attached := 1;
                book_trades := {[ 11 := a_trade 11 7; 12 := a_trade 12 9 ]} |};
     portfolio := {| positions := []; portfolio_items := [] |};
     market_data := 3; clock := 0; events := [] |}.

End Sample.

(** ** Relations and predicates of the proofs *)

(** The order of [order_id] exists in the Book and belongs to this
    session's client. *)
Definition owned (t : Trader) (order_id : Z) : Prop :=
  exists o, book_get_order (book t) order_id = Some o /\
            clientId o = client_id_counter t.

(** Every run of [m] takes a state to an [R]-related one, whether it
    returns or raises. *)
Definition stable {A} (R : Trader -> Trader -> Prop) (m : M A) : Prop :=
  forall t, R t (snd (m t)).

(** The trace of [t'] continues the trace of [t]. *)
Definition extends (t t' : Trader) : Prop :=
  exists new, events t' = events t ++ new.

(** Two sessions that differ at most in the records the exception handler
    logged. *)
Definition handler_equiv (t1 t2 : Trader) : Prop :=
  same_attributes t1 t2 /\
  without_exception_log (events t1) = without_exception_log (events t2).

(** Two computations that, from such sessions, give the same result and
    again such sessions. *)
Definition related {A} (m1 m2 : M A) : Prop :=
  forall t1 t2, handler_equiv t1 t2 ->
    fst (m1 t1) = fst (m2 t2) /\ handler_equiv (snd (m1 t1)) (snd (m2 t2)).

(** What one attempt writes to the trace when the store answers. *)
Definition attempt_events : list Event :=
  [NewClient; Log (LogDebug "clearing portfolio universe");
   UniverseGet portfolio_name; UniverseUpdate portfolio_name [];
   ClientConnect].

(** The session after an attempt that got as far as [client.connect()]. *)
Definition attempted (env : Env) (t : Trader) : Trader :=
  {| ib_connected := false;
     client_id_counter := env_client_id env;
     universes := universe_accessor t;
     universe_accessor := <[portfolio_name := []]> (universe_accessor t);
     contract_subscriptions := [];
     market_data_subscriptions := [];
     book := book t; portfolio := portfolio t; market_data := market_data t;
     clock := clock t + Z.max 0 (env_duration env (calls (events t) + 3));
     events := events t ++ attempt_events |}.

(** The waits of a trace, oldest first. *)
Definition sleeps (ev : list Event) : list Z :=
  omap (fun e => match e with Sleep ms => Some ms | _ => None end) ev.

(** The "portfolio" universe is empty and stored so, no market-data
    subscription is held, and the trace ends with the store's update and the
    connection. *)
Definition cleared (t : Trader) : Prop :=
  portfolio_universe t = [] /\
  universe_accessor t !! portfolio_name = Some [] /\
  market_data_subscriptions t = [] /\
  exists earlier,
    events t = earlier ++ [UniverseUpdate portfolio_name []; ClientConnect].

(** Consistency is kept from the state before to the state after. *)
Definition keeps_consistent (t t' : Trader) : Prop :=
  consistent t -> consistent t'.

(** ** Further operations and predicates *)

(** Lines 336-337. *)
Definition get_universes : M (gmap string (list SecurityDefinition)) :=
  gets universes.

(** The universe and the subscription keys of [t'] begin with those of
    [t]: nothing was dropped or reordered. *)
Definition grows (t t' : Trader) : Prop :=
  (exists added, portfolio_universe t' = portfolio_universe t ++ added) /\
  (exists added, keys (market_data_subscriptions t')
                 = keys (market_data_subscriptions t) ++ added).

(** Every subscription that has a definition for key is for an instrument
    of the "portfolio" universe. *)
Definition subscribed_within_universe (t : Trader) : Prop :=
  forall s, In (Some s) (keys (market_data_subscriptions t)) ->
            In (sd_conId s) (universe_conIds t).

Definition keeps_subscribed_within (t t' : Trader) : Prop :=
  subscribed_within_universe t -> subscribed_within_universe t'.

(** The Book and the Portfolio are the same. *)
Definition same_ledgers (t t' : Trader) : Prop :=
  book t' = book t /\ portfolio t' = portfolio t.

(** The gateway answers every resolution and every history subscription:
    it may fail, it does not leave the caller waiting for ever. *)
Definition never_suspends (env : Env) : Prop :=
  (forall n c e, env_contract_details env n c = Raise e ->
                 is_Suspended e = false) /\
  (forall n c e, env_subscribe_history env n c = Raise e ->
                 is_Suspended e = false).

(** The set-up's own calls go through. *)
Definition subscriptions_answer (env : Env) : Prop :=
  (forall n, env_book_subscribe env n = Ok tt) /\
  (forall n, env_subscribe_positions env n = Ok tt) /\
  (forall n, env_subscribe_portfolio env n = Ok tt) /\
  (forall n, exists orders, env_open_orders env n = Ok orders).

(** Every run of [m] returns. *)
Definition succeeds {A} (m : M A) : Prop :=
  forall t, is_Ok (fst (m t)) = true.

(** The sample gateway refusing the first connection of a fresh session
    and accepting from then on. *)
Definition refusing_once : Env :=
  {| env_store_connect := env_store_connect Sample.gateway;
     env_client_connect :=
       fun n => if (n =? 3)%nat then Raise ConnectionRefusedError else Ok tt;
     env_client_id := env_client_id Sample.gateway;
     env_duration := env_duration Sample.gateway;
     env_jitter := env_jitter Sample.gateway;
     env_book_subscribe := env_book_subscribe Sample.gateway;
     env_subscribe_positions := env_subscribe_positions Sample.gateway;
     env_subscribe_portfolio := env_subscribe_portfolio Sample.gateway;
     env_ib_portfolio := env_ib_portfolio Sample.gateway;
     env_open_orders := env_open_orders Sample.gateway;
     env_contract_details := env_contract_details Sample.gateway;
     env_subscribe_history := env_subscribe_history Sample.gateway;
     env_ticks := env_ticks Sample.gateway;
     env_place_order := env_place_order Sample.gateway;
     env_cancel_order := env_cancel_order Sample.gateway;
     env_key_eqb := env_key_eqb Sample.gateway;
     env_round2 := env_round2 Sample.gateway |}.

(** The sample gateway refusing the first connection of a fresh session
    and failing every later one with another error. *)
Definition refusing_then_failing : Env :=
  {| env_store_connect := env_store_connect Sample.gateway;
     env_client_connect :=
       fun n => if (n =? 3)%nat then Raise ConnectionRefusedError
                else Raise (OtherError 1);
     env_client_id := env_client_id Sample.gateway;
     env_duration := env_duration Sample.gateway;
     env_jitter := env_jitter Sample.gateway;
     env_book_subscribe := env_book_subscribe Sample.gateway;
     env_subscribe_positions := env_subscribe_positions Sample.gateway;
     env_subscribe_portfolio := env_subscribe_portfolio Sample.gateway;
     env_ib_portfolio := env_ib_portfolio Sample.gateway;
     env_open_orders := env_open_orders Sample.gateway;
     env_contract_details := env_contract_details Sample.gateway;
     env_subscribe_history := env_subscribe_history Sample.gateway;
     env_ticks := env_ticks Sample.gateway;
     env_place_order := env_place_order Sample.gateway;
     env_cancel_order := env_cancel_order Sample.gateway;
     env_key_eqb := env_key_eqb Sample.gateway;
     env_round2 := env_round2 Sample.gateway |}.

(** The [universes] attribute is the same. *)
Definition same_universes (t t' : Trader) : Prop := universes t' = universes t.

(** The stable keys seen so far, in the order of first appearance. *)
Definition add_key (ids : list Z) (c : Z) : list Z :=
  if existsb (fun x => x =? c) ids then ids else ids ++ [c].

Definition first_appearances (cs : list Z) (ids : list Z) : list Z :=
  fold_left add_key cs ids.

(** The universe and the subscriptions hold the same stable keys, in the
    same order, and no subscription is keyed by [None]. *)
Definition in_step (ids : list Z) (t : Trader) : Prop :=
  universe_conIds t = ids /\
  ~ In None (keys (market_data_subscriptions t)) /\
  subscription_conIds t = ids.

(** A gateway that resolves every contract, faithfully, and opens every
    history stream, and a dict whose keys are equal only when they are the
    same definition. *)
Definition serves_everything (env : Env) : Prop :=
  (forall n c, exists d rest,
      env_contract_details env n c = Ok (d :: rest) /\
      conId (cd_contract d) = conId c) /\
  (forall n c, env_subscribe_history env n c = Ok tt) /\
  (forall a b, env_key_eqb env a b = true -> a = b).

(** * Properties *)

(** ** [setup_subscriptions] on a link that is down *)

(** The guard of lines 142-143. *)
Lemma not_connected_raises (env : Env) (t : Trader) :
  ib_connected t = false ->
  setup_subscriptions env t = (Raise ConnectionError, t).
Proof.
  intros Hdown.
  unfold setup_subscriptions, setup_subscriptions_frame,
    setup_subscriptions_with, is_ib_connected, bind, gets.
  rewrite Hdown. reflexivity.
Qed.

(** A client that exists and is down: the guard raises [ConnectionError]
    and the session is the one given, trace included. *)
Lemma down_link_raises (env : Env) (t : Trader) :
  ib_connected t = false ->
  session_setup_subscriptions env (WithClient t)
  = (Raise ConnectionError, WithClient t).
Proof.
  intros Hdown. unfold session_setup_subscriptions.
  cbn [session_is_ib_connected self_client].
  rewrite (not_connected_raises env t Hdown). reflexivity.
Qed.

(** The sample gateway refused every attempt of [connect]: the client of
    the last attempt exists and its link is down. *)
Example down_link_sample :
  let t := snd (connect Sample.refusing Sample.connected) in
  ib_connected t = false /\
  session_setup_subscriptions Sample.gateway (WithClient t)
  = (Raise ConnectionError, WithClient t).
Proof.
  cbv zeta. split; [reflexivity|]. apply down_link_raises. reflexivity.
Qed.

(** C10, on the code: on an object that never connected, the test of line
    142 reads [self.client], which [__init__] does not bind, and
    [setup_subscriptions] raises [AttributeError], not the [ConnectionError]
    of line 143; the object is as it was.  Once a client exists and its link
    is down, the guard does raise [ConnectionError], and the session is as it
    was: nothing is added to the trace and the Book, the Portfolio, the
    catalog and the subscription maps are the same. *)
Theorem setup_subscriptions_without_client (env : Env) :
  (forall s : Settings,
     session_is_ib_connected (NoClient (Trader_init s)) = Raise AttributeError /\
     session_setup_subscriptions env (NoClient (Trader_init s))
     = (Raise AttributeError, NoClient (Trader_init s))) /\
  (forall t : Trader,
     session_setup_subscriptions env (WithClient (with_ib_connected false t))
     = (Raise ConnectionError, WithClient (with_ib_connected false t))).
Proof.
  split.
  - intros s. split; reflexivity.
  - intros t. apply down_link_raises. reflexivity.
Qed.

(** The object of the sample settings, asked to set up its subscriptions
    before any [connect]. *)
Example setup_subscriptions_before_connect_sample :
  session_setup_subscriptions Sample.gateway
    (NoClient (Trader_init Sample.settings))
  = (Raise AttributeError, NoClient (Trader_init Sample.settings)) /\
  fst (session_setup_subscriptions Sample.gateway
         (NoClient (Trader_init Sample.settings)))
  <> Raise ConnectionError.
Proof. split; [reflexivity | discriminate]. Qed.

(** ** Cancellation *)

(** C3: [cancel_order] returns a trade only for a stored order whose client
    id is the session's; in every other case it returns no trade, logs the
    ownership error and makes no call on the gateway, the session being
    otherwise untouched. *)
Theorem cancel_order_ownership (env : Env) (order_id : Z) (t : Trader) :
  (forall trade, fst (cancel_order env order_id t) = Ok (Some trade) ->
                 owned t order_id) /\
  (~ owned t order_id ->
     cancel_order env order_id t
     = (Ok None, with_events (events t ++ [Log (LogError cancel_refused)]) t) /\
     gateway_calls (events (snd (cancel_order env order_id t)))
     = gateway_calls (events t)).
Proof.
  unfold cancel_order, owned, bind, gets.
  destruct (book_get_order (book t) order_id) as [o|] eqn:Hget.
  - destruct (clientId o =? client_id_counter t) eqn:Hown.
    + apply Z.eqb_eq in Hown. split.
      * intros _ _. exists o. auto.
      * intros Hno. exfalso. apply Hno. exists o. auto.
    + split.
      * simpl. intros trade Hr. discriminate.
      * intros _. split; [reflexivity|].
        simpl. unfold gateway_calls. rewrite List.filter_app. simpl.
        apply app_nil_r.
  - split.
    + simpl. intros trade Hr. discriminate.
    + intros _. split; [reflexivity|].
      simpl. unfold gateway_calls. rewrite List.filter_app. simpl.
      apply app_nil_r.
Qed.

Lemma cancel_order_ownership_witness :
  cancel_order Sample.gateway 12 Sample.connected
  = (Ok None,
     with_events (events Sample.connected ++ [Log (LogError cancel_refused)])
                 Sample.connected) /\
  gateway_calls (events (snd (cancel_order Sample.gateway 12 Sample.connected)))
  = gateway_calls (events Sample.connected).
Proof.
  apply (cancel_order_ownership Sample.gateway 12 Sample.connected).
  intros [o [Hget Hown]]. vm_compute in Hget. injection Hget as <-.
  vm_compute in Hown. discriminate.
Defined.

(** An owned order is cancelled through exactly one gateway call. *)
Lemma cancel_order_owned (env : Env) (order_id : Z) (t : Trader) (o : Order) :
  book_get_order (book t) order_id = Some o ->
  clientId o = client_id_counter t ->
  fst (cancel_order env order_id t)
  = Ok (env_cancel_order env (calls (events t ++ [Log (LogInfo "cancelling order")])) o) /\
  gateway_calls (events (snd (cancel_order env order_id t)))
  = gateway_calls (events t) ++ [CancelOrder o].
Proof.
  intros Hget Hown. unfold cancel_order, bind, gets. rewrite Hget.
  apply Z.eqb_eq in Hown. rewrite Hown. simpl. split; [reflexivity|].
  unfold gateway_calls. rewrite !List.filter_app. simpl.
  rewrite app_nil_r. reflexivity.
Qed.

(** ** Relations between the state before and after a computation *)

Section Stable.

Variable R : Trader -> Trader -> Prop.
Hypothesis R_refl : forall t, R t t.
Hypothesis R_trans : forall t1 t2 t3, R t1 t2 -> R t2 t3 -> R t1 t3.

Lemma stable_ret {A} (a : A) : stable R (ret a).
Proof. intros t. apply R_refl. Qed.

Lemma stable_raise {A} (e : exn) : stable R (@raise A e).
Proof. intros t. apply R_refl. Qed.

Lemma stable_lift {A} (o : outcome A) : stable R (lift o).
Proof. intros t. apply R_refl. Qed.

Lemma stable_gets {A} (f : Trader -> A) : stable R (gets f).
Proof. intros t. apply R_refl. Qed.

Lemma stable_now : stable R now.
Proof. intros t. apply R_refl. Qed.

Lemma stable_modify (f : Trader -> Trader) :
  (forall t, R t (f t)) -> stable R (modify f).
Proof. intros Hf t. apply Hf. Qed.

Lemma stable_bind {A B} (m : M A) (k : A -> M B) :
  stable R m -> (forall a, stable R (k a)) -> stable R (bind m k).
Proof.
  intros Hm Hk t. unfold bind. specialize (Hm t).
  destruct (m t) as [[a|e] t']; simpl in *.
  - eapply R_trans; [exact Hm | apply Hk].
  - exact Hm.
Qed.

Lemma stable_try_except {A} (m : M A) (h : exn -> M A) :
  stable R m -> (forall e, stable R (h e)) -> stable R (try_except m h).
Proof.
  intros Hm Hh t. unfold try_except. specialize (Hm t).
  destruct (m t) as [[a|e] t']; simpl in *; [exact Hm|].
  destruct (is_Suspended e); simpl; [exact Hm|].
  eapply R_trans; [exact Hm | apply Hh].
Qed.

Lemma stable_for_each {A} (l : list A) (body : A -> M unit) :
  (forall x, stable R (body x)) -> stable R (for_each l body).
Proof.
  intros Hb. induction l as [|x l IH]; simpl.
  - apply stable_ret.
  - apply stable_bind; [apply Hb | intros _; exact IH].
Qed.

Lemma stable_for_each_frame {A} (l : list A) (body : frame -> A -> M frame) :
  (forall fr x, stable R (body fr x)) ->
  forall fr, stable R (for_each_frame l body fr).
Proof.
  intros Hb. induction l as [|x l IH]; intros fr; simpl.
  - apply stable_ret.
  - apply stable_bind; [apply Hb | intros fr'; apply IH].
Qed.

(** What the relation must grant: a new event, and a write of the Book or
    of the Portfolio. *)
Hypothesis R_emit : forall e t, R t (with_events (events t ++ [e]) t).
Hypothesis R_book : forall b t, R t (with_book b t).
Hypothesis R_portfolio : forall p t, R t (with_portfolio p t).

Lemma stable_emit (e : Event) : stable R (emit e).
Proof. apply stable_modify. intros t. apply R_emit. Qed.

Lemma stable_logging (r : LogRecord) : stable R (logging r).
Proof. apply stable_emit. Qed.

Lemma stable_handle_subscription_exception (ex : exn) (fr : frame) :
  stable R (handle_subscription_exception ex fr).
Proof.
  apply stable_bind; [apply stable_logging | intros _; apply stable_ret].
Qed.

Lemma stable_anoop (ex : exn) (fr : frame) : stable R (anoop ex fr).
Proof. apply stable_ret. Qed.

Lemma stable_cached_observer_asend {A} (asend : A -> M unit)
    (athrow : exn -> frame -> M frame) (capture : bool) (fr : frame) (v : A) :
  stable R (asend v) -> (forall ex, stable R (athrow ex fr)) ->
  stable R (cached_observer_asend asend athrow capture fr v).
Proof.
  intros Ha Ht. unfold cached_observer_asend.
  destruct capture.
  - apply stable_try_except; [|exact Ht].
    apply stable_bind; [exact Ha | intros _; apply stable_ret].
  - apply stable_bind; [exact Ha | intros _; apply stable_ret].
Qed.

Lemma stable_update_positions (batch : list Position) :
  stable R (update_positions batch).
Proof.
  apply stable_bind; [apply stable_logging | intros _].
  apply stable_for_each. intros p. apply stable_modify.
  intros t. apply R_portfolio.
Qed.

Lemma stable_book_subscribe (env : Env) :
  stable R (book_subscribe_to_eventkit_event env).
Proof.
  unfold book_subscribe_to_eventkit_event.
  apply stable_bind; [apply stable_now | intros n].
  apply stable_bind; [apply stable_emit | intros _].
  apply stable_bind; [apply stable_lift | intros _].
  apply stable_modify. intros t. apply R_book.
Qed.

Lemma stable_book_asend (o : Trade) : stable R (book_asend o).
Proof.
  apply stable_bind; [apply stable_emit | intros _].
  apply stable_modify. intros t. apply R_book.
Qed.

(** For a relation that also grants every write of the catalog and of
    the subscription map, reconciling one item is stable R. *)
Hypothesis R_universe : forall u t, R t (with_universe_accessor u t).
Hypothesis R_subscriptions :
  forall s t, R t (with_market_data_subscriptions s t).

Lemma stable_universe_accessor_get (name : string) :
  stable R (universe_accessor_get name).
Proof.
  apply stable_bind; [apply stable_emit | intros _; apply stable_gets].
Qed.

Lemma stable_universe_accessor_update (name : string)
    (defs : list SecurityDefinition) :
  stable R (universe_accessor_update name defs).
Proof.
  apply stable_bind; [apply stable_emit | intros _].
  apply stable_modify. intros t. apply R_universe.
Qed.

Lemma stable_update_portfolio_universe_writes (env : Env) (p : PortfolioItem) :
  stable R (update_portfolio_universe env p).
Proof.
  unfold update_portfolio_universe.
  apply stable_bind; [apply stable_universe_accessor_get | intros defs].
  apply stable_bind; [apply stable_lift | intros present].
  destruct present; simpl; [apply stable_ret|].
  apply stable_bind; [apply stable_now | intros n].
  apply stable_bind; [apply stable_emit | intros _].
  apply stable_bind; [apply stable_lift | intros ds].
  apply stable_bind; [apply stable_logging | intros _].
  apply stable_bind; [apply stable_universe_accessor_update | intros _].
  apply stable_bind; [apply stable_gets | intros ks].
  apply stable_bind; [apply stable_lift | intros subscribed].
  destruct subscribed; simpl; [apply stable_ret|].
  apply stable_bind; [apply stable_logging | intros _].
  apply stable_bind; [apply stable_now | intros n'].
  apply stable_bind; [apply stable_emit | intros _].
  apply stable_bind; [apply stable_lift | intros _].
  apply stable_modify. intros t. apply R_subscriptions.
Qed.

(** Given that reconciling one item is stable R. *)
Variable env : Env.
Hypothesis stable_reconcile :
  forall p, stable R (update_portfolio_universe env p).

Lemma stable_update_portfolio (p : PortfolioItem) :
  stable R (update_portfolio env p).
Proof.
  apply stable_bind; [apply stable_logging | intros _].
  apply stable_bind; [|intros _; apply stable_reconcile].
  apply stable_modify. intros t. apply R_portfolio.
Qed.

Lemma stable_on_portfolio_item (fr : frame) (p : PortfolioItem) :
  stable R (on_portfolio_item env fr p).
Proof.
  apply stable_cached_observer_asend.
  - apply stable_update_portfolio.
  - intros ex. apply stable_handle_subscription_exception.
Qed.

Lemma stable_feed_portfolio_items (items : list PortfolioItem)
    (fr : frame) :
  stable R (feed_portfolio_items env items fr).
Proof.
  apply stable_for_each_frame. intros fr' p.
  apply stable_on_portfolio_item.
Qed.

(** The part of [setup_subscriptions] after the Book is attached. *)
Lemma stable_subscribe_and_replay
    (athrow : exn -> frame -> M frame) (locals : frame) :
  (forall ex fr, stable R (athrow ex fr)) ->
  stable R (subscribe_and_replay athrow env locals).
Proof.
  intros Ht. unfold subscribe_and_replay.
  apply stable_bind; [apply stable_now | intros n1].
  apply stable_bind; [apply stable_emit | intros _].
  apply stable_bind; [apply stable_lift | intros _].
  apply stable_bind; [apply stable_now | intros n2].
  apply stable_bind; [apply stable_emit | intros _].
  apply stable_bind; [apply stable_lift | intros _].
  apply stable_bind; [apply stable_now | intros n3].
  apply stable_bind; [apply stable_emit | intros _].
  apply stable_bind.
  { apply stable_for_each_frame. intros fr p.
    apply stable_cached_observer_asend; [apply stable_update_portfolio|].
    intros ex. apply Ht. }
  intros locals'.
  apply stable_bind; [apply stable_gets | intros mode].
  apply stable_bind; [apply stable_emit | intros _].
  apply stable_bind; [apply stable_now | intros n4].
  apply stable_bind; [apply stable_emit | intros _].
  apply stable_bind; [apply stable_lift | intros orders].
  apply stable_bind; [|intros _; apply stable_ret].
  apply stable_for_each. intros o. apply stable_book_asend.
Qed.

Lemma stable_setup_subscriptions_with
    (athrow : exn -> frame -> M frame) :
  (forall ex fr, stable R (athrow ex fr)) ->
  stable R (setup_subscriptions_with athrow env).
Proof.
  intros Ht. unfold setup_subscriptions_with, is_ib_connected.
  apply stable_bind; [apply stable_gets | intros connected].
  destruct connected; simpl; [|apply stable_raise].
  apply stable_bind; [apply stable_book_subscribe | intros _].
  apply stable_subscribe_and_replay. exact Ht.
Qed.

Lemma stable_setup_subscriptions :
  stable R (setup_subscriptions env).
Proof.
  apply stable_bind; [|intros _; apply stable_ret].
  apply stable_setup_subscriptions_with.
  intros ex fr. apply stable_handle_subscription_exception.
Qed.

End Stable.

(** ** The trace only grows *)

Lemma extends_refl (t : Trader) : extends t t.
Proof. exists []. symmetry. apply app_nil_r. Qed.

Lemma extends_trans (t1 t2 t3 : Trader) :
  extends t1 t2 -> extends t2 t3 -> extends t1 t3.
Proof.
  intros [l1 H1] [l2 H2]. exists (l1 ++ l2).
  rewrite H2, H1. symmetry. apply app_assoc.
Qed.

Lemma extends_emit (e : Event) (t : Trader) :
  extends t (with_events (events t ++ [e]) t).
Proof. exists [e]. reflexivity. Qed.

Lemma extends_same_events (t t' : Trader) :
  events t' = events t -> extends t t'.
Proof. intros H. exists []. rewrite H. symmetry. apply app_nil_r. Qed.

Ltac extends_side :=
  first [ exact extends_refl | exact extends_trans | exact extends_emit
        | assumption
        | intros; apply extends_same_events; reflexivity ].

Lemma extends_update_portfolio_universe (env : Env) (p : PortfolioItem) :
  stable extends (update_portfolio_universe env p).
Proof.
  apply stable_update_portfolio_universe_writes; extends_side.
Qed.

Lemma extends_setup_subscriptions_with
    (athrow : exn -> frame -> M frame) (env : Env) :
  (forall ex fr, stable extends (athrow ex fr)) ->
  stable extends (setup_subscriptions_with athrow env).
Proof.
  intros Ht.
  apply stable_setup_subscriptions_with;
    first [ exact (extends_update_portfolio_universe env) | extends_side ].
Qed.

(** ** Ordering of the replay *)

(** The Book's attachment writes one event, whatever the gateway answers. *)
Lemma book_subscribe_events (env : Env) (t : Trader) :
  events (snd (book_subscribe_to_eventkit_event env t))
  = events t ++ [BookSubscribe].
Proof.
  unfold book_subscribe_to_eventkit_event, bind, now, emit, modify, lift.
  simpl. destruct (env_book_subscribe env (calls (events t))); reflexivity.
Qed.

Lemma book_subscribe_raises (env : Env) (t : Trader) (e : exn) :
  env_book_subscribe env (calls (events t)) = Raise e ->
  book_subscribe_to_eventkit_event env t
  = (Raise e, with_events (events t ++ [BookSubscribe]) t).
Proof.
  intros H.
  unfold book_subscribe_to_eventkit_event, bind, now, emit, modify, lift.
  simpl. rewrite H. reflexivity.
Qed.

Lemma extends_subscribe_and_replay
    (athrow : exn -> frame -> M frame) (env : Env) (locals : frame) :
  (forall ex fr, stable extends (athrow ex fr)) ->
  stable extends (subscribe_and_replay athrow env locals).
Proof.
  intros Ht.
  apply stable_subscribe_and_replay;
    first [ exact (extends_update_portfolio_universe env) | extends_side ].
Qed.

Lemma extends_handle_subscription_exception (ex : exn) (fr : frame) :
  stable extends (handle_subscription_exception ex fr).
Proof. apply stable_handle_subscription_exception; extends_side. Qed.

(** [setup_subscriptions] on a connected link, step by step. *)
Lemma setup_subscriptions_connected (env : Env) (t : Trader) :
  ib_connected t = true ->
  setup_subscriptions env t
  = match book_subscribe_to_eventkit_event env t with
    | (Ok _, t1) =>
        match subscribe_and_replay handle_subscription_exception env
                {["error" := false]} t1 with
        | (Ok _, t2) => (Ok tt, t2)
        | (Raise e, t2) => (Raise e, t2)
        end
    | (Raise e, t1) => (Raise e, t1)
    end.
Proof.
  intros Hc.
  unfold setup_subscriptions, setup_subscriptions_frame,
    setup_subscriptions_with, is_ib_connected, bind, gets, ret.
  rewrite Hc. simpl.
  destruct (book_subscribe_to_eventkit_event env t) as [[[]|e] t1];
    [|reflexivity].
  destruct (subscribe_and_replay _ _ _ t1) as [[fr|e] t2]; reflexivity.
Qed.

(** The trace a run of [setup_subscriptions] adds: nothing, the attachment
    alone when it fails, or the attachment and then the rest. *)
Lemma setup_subscriptions_trace (env : Env) (t : Trader) :
  events (snd (setup_subscriptions env t)) = events t \/
  (exists e, env_book_subscribe env (calls (events t)) = Raise e /\
             events (snd (setup_subscriptions env t))
             = events t ++ [BookSubscribe]) \/
  (env_book_subscribe env (calls (events t)) = Ok tt /\
   exists rest, events (snd (setup_subscriptions env t))
                = events t ++ BookSubscribe :: rest).
Proof.
  destruct (ib_connected t) eqn:Hc.
  2:{ left. rewrite (not_connected_raises env t Hc).
      reflexivity. }
  right. rewrite (setup_subscriptions_connected env t Hc).
  destruct (env_book_subscribe env (calls (events t))) as [[]|e] eqn:Hs.
  - right. split; [reflexivity|].
    pose proof (book_subscribe_events env t) as Hev.
    destruct (book_subscribe_to_eventkit_event env t) as [[[]|e] t1] eqn:Hb;
      simpl in Hev.
    + destruct (extends_subscribe_and_replay handle_subscription_exception env
                  {["error" := false]} extends_handle_subscription_exception t1)
        as [rest Hrest].
      exists rest.
      destruct (subscribe_and_replay handle_subscription_exception env _ t1)
        as [[fr|e] t2]; simpl in *; rewrite Hrest, Hev, <- app_assoc;
        reflexivity.
    + exists []. simpl. exact Hev.
  - left. exists e. split; [reflexivity|].
    rewrite (book_subscribe_raises env t e Hs). reflexivity.
Qed.

(** C2: in every run of [setup_subscriptions], each event of the open-orders
    replay (the fetch of the snapshot and every [book.asend] of it) comes
    later in the trace than the attachment of the Book to the live order
    events, and that attachment had succeeded. *)
Theorem replay_after_attachment (env : Env) (t : Trader) :
  exists new,
    events (snd (setup_subscriptions env t)) = events t ++ new /\
    forall (i : nat) (e : Event),
      new !! i = Some e -> is_replay e = true ->
      exists j : nat,
        (j < i)%nat /\ new !! j = Some BookSubscribe /\
        env_book_subscribe env (calls (events t)) = Ok tt.
Proof.
  destruct (setup_subscriptions_trace env t)
    as [Hnone | [[ex [Hs Hone]] | [Hs [rest Hrest]]]].
  - exists []. split; [rewrite app_nil_r; exact Hnone|].
    intros i e Hi. destruct i; discriminate.
  - exists [BookSubscribe]. split; [exact Hone|].
    intros [|i] e Hi Hr; simpl in Hi.
    + injection Hi as <-. discriminate.
    + destruct i; discriminate.
  - exists (BookSubscribe :: rest). split; [exact Hrest|].
    intros [|i] e Hi Hr; simpl in Hi.
    + injection Hi as <-. discriminate.
    + exists 0%nat. split; [lia|]. split; [reflexivity | exact Hs].
Qed.

Lemma replay_after_attachment_witness :
  exists new,
    events (snd (setup_subscriptions Sample.gateway Sample.connected))
    = events Sample.connected ++ new /\
    forall (i : nat) (e : Event),
      new !! i = Some e -> is_replay e = true ->
      exists j : nat,
        (j < i)%nat /\ new !! j = Some BookSubscribe /\
        env_book_subscribe Sample.gateway (calls (events Sample.connected))
        = Ok tt.
Proof.
  exact (replay_after_attachment Sample.gateway Sample.connected).
Defined.

(** On the sample gateway the replay does take place, after the
    attachment. *)
Example sample_replay_order :
  List.filter (fun e => is_replay e || match e with BookSubscribe => true | _ => false end)
    (events (snd (setup_subscriptions Sample.gateway Sample.connected)))
  = [BookSubscribe; ReqAllOpenOrders; BookAsend (Sample.a_trade 11 7)].
Proof. vm_compute. reflexivity. Qed.

(** ** The handler's assignment to [error] *)

Lemma calls_without_exception_log (ev : list Event) :
  calls (without_exception_log ev) = calls ev.
Proof.
  unfold calls, without_exception_log.
  induction ev as [|e ev IH]; [reflexivity|].
  destruct e as [[]| | | | | | | | | | | | | | | | |]; simpl;
    try rewrite IH; try reflexivity; simpl in *; lia.
Qed.

Ltac simpl_events :=
  repeat match goal with
         | |- context [events (with_events ?ev ?t)] =>
             change (events (with_events ev t)) with ev
         end.

Lemma related_ret {A} (a : A) : related (ret a) (ret a).
Proof. intros t1 t2 H. split; [reflexivity | exact H]. Qed.

Lemma related_raise {A} (e : exn) : related (@raise A e) (raise e).
Proof. intros t1 t2 H. split; [reflexivity | exact H]. Qed.

Lemma related_lift {A} (o : outcome A) : related (lift o) (lift o).
Proof. intros t1 t2 H. split; [reflexivity | exact H]. Qed.

Lemma related_gets {A} (f : Trader -> A) :
  (forall t, f (with_events [] t) = f t) -> related (gets f) (gets f).
Proof.
  intros Hf t1 t2 [Hs He]. split; [|split; assumption].
  simpl. rewrite <- (Hf t1), <- (Hf t2). f_equal. f_equal. exact Hs.
Qed.

Lemma related_now : related now now.
Proof.
  intros t1 t2 [Hs He]. split; [|split; assumption].
  simpl. f_equal.
  rewrite <- (calls_without_exception_log (events t1)),
          <- (calls_without_exception_log (events t2)), He.
  reflexivity.
Qed.

Lemma related_modify (f : Trader -> Trader) :
  (forall t, with_events [] (f t) = f (with_events [] t)) ->
  (forall t, events (f t) = events t) ->
  related (modify f) (modify f).
Proof.
  intros Hf Hev t1 t2 [Hs He]. split; [reflexivity|]. simpl. split.
  - unfold same_attributes in *. rewrite !Hf, Hs. reflexivity.
  - rewrite !Hev. exact He.
Qed.

Lemma related_emit (e : Event) : related (emit e) (emit e).
Proof.
  intros t1 t2 [Hs He]. split; [reflexivity|]. simpl. split.
  - exact Hs.
  - unfold without_exception_log in *. simpl_events.
    rewrite !List.filter_app, He. reflexivity.
Qed.

Lemma related_bind {A B} (m1 m2 : M A) (k1 k2 : A -> M B) :
  related m1 m2 -> (forall a, related (k1 a) (k2 a)) ->
  related (bind m1 k1) (bind m2 k2).
Proof.
  intros Hm Hk t1 t2 H. unfold bind.
  destruct (Hm t1 t2 H) as [Hr Hst].
  destruct (m1 t1) as [[a1|e1] t1'], (m2 t2) as [[a2|e2] t2'];
    simpl in *; try discriminate.
  - injection Hr as <-. apply Hk. exact Hst.
  - injection Hr as <-. split; [reflexivity | exact Hst].
Qed.

Lemma related_try_except {A} (m1 m2 : M A) (h1 h2 : exn -> M A) :
  related m1 m2 -> (forall e, related (h1 e) (h2 e)) ->
  related (try_except m1 h1) (try_except m2 h2).
Proof.
  intros Hm Hh t1 t2 H. unfold try_except.
  destruct (Hm t1 t2 H) as [Hr Hst].
  destruct (m1 t1) as [[a1|e1] t1'], (m2 t2) as [[a2|e2] t2'];
    simpl in *; try discriminate.
  - split; assumption.
  - injection Hr as <-. destruct (is_Suspended e1).
    + split; [reflexivity | exact Hst].
    + apply Hh. exact Hst.
Qed.

Lemma related_for_each {A} (l : list A) (body : A -> M unit) :
  (forall x, related (body x) (body x)) ->
  related (for_each l body) (for_each l body).
Proof.
  intros Hb. induction l as [|x l IH]; simpl.
  - apply related_ret.
  - apply related_bind; [apply Hb | intros _; exact IH].
Qed.

Lemma related_for_each_frame {A} (l : list A)
    (body1 body2 : frame -> A -> M frame) :
  (forall fr x, related (body1 fr x) (body2 fr x)) ->
  forall fr, related (for_each_frame l body1 fr) (for_each_frame l body2 fr).
Proof.
  intros Hb. induction l as [|x l IH]; intros fr; simpl.
  - apply related_ret.
  - apply related_bind; [apply Hb | intros fr'; apply IH].
Qed.

(** The heart of the matter: the handler leaves the enclosing frame as it
    found it, and writes only its log record. *)
Lemma related_handler (ex : exn) (fr : frame) :
  related (handle_subscription_exception ex fr) (anoop ex fr).
Proof.
  intros t1 t2 [Hs He]. split; [reflexivity|]. simpl. split.
  - exact Hs.
  - unfold without_exception_log in *. simpl_events.
    rewrite List.filter_app, He. simpl. apply app_nil_r.
Qed.

Ltac related_step :=
  first [ apply related_ret | apply related_raise | apply related_lift
        | apply related_now | apply related_emit
        | apply related_gets; intros; reflexivity
        | apply related_modify; intros; reflexivity
        | apply related_bind; [|intros ?] ].

Ltac related_auto :=
  repeat first
    [ related_step
    | progress cbv zeta
    | match goal with
      | |- related (if negb ?b then _ else _) _ => destruct b; simpl
      end ].

Lemma related_update_portfolio_universe (env : Env) (p : PortfolioItem) :
  related (update_portfolio_universe env p) (update_portfolio_universe env p).
Proof.
  unfold update_portfolio_universe, universe_accessor_get,
    universe_accessor_update, logging.
  related_auto.
Qed.

Lemma related_update_portfolio (env : Env) (p : PortfolioItem) :
  related (update_portfolio env p) (update_portfolio env p).
Proof.
  unfold update_portfolio, logging, add_portfolio_item.
  related_step; [related_step|].
  related_step; [related_step|].
  apply related_update_portfolio_universe.
Qed.

Lemma related_book_asend (o : Trade) : related (book_asend o) (book_asend o).
Proof. unfold book_asend. repeat related_step. Qed.

Lemma related_subscribe_and_replay (env : Env) (locals : frame) :
  related (subscribe_and_replay handle_subscription_exception env locals)
          (subscribe_and_replay anoop env locals).
Proof.
  unfold subscribe_and_replay.
  related_auto.
  - apply related_for_each_frame. intros fr p.
    unfold cached_observer_asend. apply related_try_except.
    + apply related_bind; [apply related_update_portfolio|].
      intros _. apply related_ret.
    + intros ex. apply related_handler.
  - apply related_for_each. intros o. apply related_book_asend.
Qed.

Lemma related_setup_subscriptions_with (env : Env) :
  related (setup_subscriptions_with handle_subscription_exception env)
          (setup_subscriptions_with anoop env).
Proof.
  unfold setup_subscriptions_with, is_ib_connected.
  related_step; [related_step|].
  destruct a; simpl; [|related_step].
  apply related_bind.
  - unfold book_subscribe_to_eventkit_event. related_auto.
  - intros _. apply related_subscribe_and_replay.
Qed.

(** The handler hands back the enclosing frame it was given. *)
Lemma handle_subscription_exception_frame (ex : exn) (fr : frame) (t : Trader) :
  fst (handle_subscription_exception ex fr t) = Ok fr.
Proof. reflexivity. Qed.

(** Under a [nonlocal error] declaration the same assignment would have
    reached the enclosing frame. *)
Example assign_nested_nonlocal (fr : frame) :
  fst (assign_nested ["error"] "error" true fr ∅) !! "error" = Some true /\
  fst (assign_nested [] "error" true fr ∅) = fr.
Proof.
  split; [|reflexivity].
  unfold assign_nested. simpl. apply lookup_insert_eq.
Qed.

Lemma for_each_frame_returns {A} (l : list A) (body : frame -> A -> M frame) :
  (forall fr x t fr', fst (body fr x t) = Ok fr' -> fr' = fr) ->
  forall fr t fr', fst (for_each_frame l body fr t) = Ok fr' -> fr' = fr.
Proof.
  intros Hb. induction l as [|x l IH]; intros fr t fr'; simpl.
  - unfold ret. simpl. intros H. injection H as <-. reflexivity.
  - unfold bind. specialize (Hb fr x t).
    destruct (body fr x t) as [[fr1|e] t1]; simpl in *; [|discriminate].
    intros H. apply IH in H. rewrite H. apply Hb. reflexivity.
Qed.

Lemma cached_observer_asend_returns {A} (asend : A -> M unit)
    (athrow : exn -> frame -> M frame) (capture : bool) :
  (forall ex fr t fr', fst (athrow ex fr t) = Ok fr' -> fr' = fr) ->
  forall fr v t fr',
    fst (cached_observer_asend asend athrow capture fr v t) = Ok fr' -> fr' = fr.
Proof.
  intros Ht fr v t fr'. unfold cached_observer_asend, try_except, bind, ret.
  destruct capture; destruct (asend v t) as [[[]|e] t1]; simpl;
    try (intros H; injection H as <-; reflexivity); try discriminate.
  destruct (is_Suspended e); simpl; [discriminate|]. apply Ht.
Qed.

(** The frame [setup_subscriptions] ends with is the one it began with. *)
Lemma setup_subscriptions_with_frame (athrow : exn -> frame -> M frame)
    (env : Env) (t : Trader) (locals : frame) :
  (forall ex fr t fr', fst (athrow ex fr t) = Ok fr' -> fr' = fr) ->
  fst (setup_subscriptions_with athrow env t) = Ok locals ->
  locals = {["error" := false]}.
Proof.
  intros Ht.
  unfold setup_subscriptions_with, is_ib_connected, subscribe_and_replay.
  unfold bind at 1. unfold gets at 1.
  destruct (ib_connected t); simpl; [|discriminate].
  unfold bind at 1.
  destruct (book_subscribe_to_eventkit_event env t) as [[[]|e] t1];
    [|discriminate].
  repeat (unfold bind at 1;
          match goal with
          | |- context [now ?s] => unfold now at 1
          | |- context [emit ?e ?s] => unfold emit at 1; unfold modify at 1
          | |- context [lift ?o ?s] => unfold lift at 1; destruct o as [?|?]; [|discriminate]
          end).
  unfold bind at 1.
  match goal with
  | |- context [for_each_frame ?l ?b ?fr ?s] =>
      pose proof (for_each_frame_returns l b
                    (cached_observer_asend_returns _ athrow true Ht) fr s) as Hf;
      destruct (for_each_frame l b fr s) as [[fr1|e] t2]; [|discriminate]
  end.
  rewrite (Hf fr1 eq_refl).
  unfold bind at 1. unfold gets at 1.
  unfold bind at 1. unfold emit at 1, modify at 1.
  unfold bind at 1. unfold now at 1.
  unfold bind at 1. unfold emit at 1, modify at 1.
  unfold bind at 1. unfold lift at 1.
  match goal with
  | |- context [env_open_orders ?e ?n] => destruct (env_open_orders e n); [|discriminate]
  end.
  unfold bind at 1.
  match goal with
  | |- context [for_each ?l ?b ?s] => destruct (for_each l b s) as [[[]|e] t3]; [|discriminate]
  end.
  unfold ret. simpl. intros H. injection H as <-. reflexivity.
Qed.

(** C9: the handler's [error = True] does not reach [setup_subscriptions]:
    a run whose observers deliver exceptions to
    [handle_subscription_exception] and a run whose observers drop them give
    the same result and the same final local variables, with [error] still
    false, and leave sessions that differ at most in the records the handler
    logged. *)
Theorem error_flag_has_no_effect (env : Env) (t : Trader) :
  let delivered := setup_subscriptions_with handle_subscription_exception env t in
  let dropped := setup_subscriptions_with anoop env t in
  fst delivered = fst dropped /\
  handler_equiv (snd delivered) (snd dropped) /\
  (forall locals, fst delivered = Ok locals ->
                  locals = {["error" := false]} /\
                  locals !! "error" = Some false).
Proof.
  cbv zeta.
  assert (Hrefl : handler_equiv t t) by (split; reflexivity).
  destruct (related_setup_subscriptions_with env t t Hrefl) as [Hr Hs].
  split; [exact Hr|]. split; [exact Hs|].
  intros locals Hl.
  assert (locals = {["error" := false]}) as ->.
  { apply (setup_subscriptions_with_frame handle_subscription_exception env t);
      [|exact Hl].
    intros ex fr t' fr' H. rewrite handle_subscription_exception_frame in H.
    injection H as <-. reflexivity. }
  split; [reflexivity | apply lookup_singleton_eq].
Qed.

Lemma error_flag_has_no_effect_witness :
  fst (setup_subscriptions_with handle_subscription_exception
         Sample.unresolved_aapl Sample.connected)
  = fst (setup_subscriptions_with anoop Sample.unresolved_aapl Sample.connected).
Proof.
  exact (proj1 (error_flag_has_no_effect Sample.unresolved_aapl
                  Sample.connected)).
Defined.

(** On the sample gateway with no details for one instrument the handler
    does run, and the two sessions differ by its record only. *)
Example error_flag_sample :
  let started := snd (connect Sample.unresolved_aapl Sample.fresh) in
  let delivered :=
    setup_subscriptions_with handle_subscription_exception
      Sample.unresolved_aapl started in
  let dropped :=
    setup_subscriptions_with anoop Sample.unresolved_aapl started in
  List.filter is_exception_log (events (snd delivered))
  = [Log (LogException AttributeError)] /\
  List.filter is_exception_log (events (snd dropped)) = [] /\
  is_Ok (fst delivered) = true.
Proof. vm_compute. repeat split. Qed.

(** ** Order sizing *)

(** [round_half_even m e] is an integer nearest to [m * 2 ^ e]: exactly that
    number when it is whole, and otherwise within half a unit of it. *)
Lemma round_half_even_whole (m e : Z) :
  0 <= e -> round_half_even m e = m * 2 ^ e.
Proof.
  intros He. unfold round_half_even.
  destruct (0 <=? e) eqn:H; [reflexivity|]. apply Z.leb_gt in H. lia.
Qed.

Lemma round_half_even_nearest (m e : Z) :
  e < 0 -> 0 <= m ->
  0 <= round_half_even m e /\
  2 * Z.abs (round_half_even m e * 2 ^ (- e) - m) <= 2 ^ (- e).
Proof.
  intros He Hm. unfold round_half_even.
  destruct (0 <=? e) eqn:H; [apply Z.leb_le in H; lia|]. clear H.
  assert (Hd : 0 < 2 ^ (- e)) by (apply Z.pow_pos_nonneg; lia).
  set (d := 2 ^ (- e)) in *.
  pose proof (Z.div_mod m d ltac:(lia)) as Hdm.
  pose proof (Z.mod_pos_bound m d Hd) as Hr.
  assert (Hq : 0 <= m / d) by (apply Z.div_pos; lia).
  set (q := m / d) in *. set (r := m mod d) in *.
  assert (Hdown : q * d - m = - r) by lia.
  assert (Hup : (q + 1) * d - m = d - r) by lia.
  destruct (Z.compare_spec (2 * r) d) as [Hc|Hc|Hc].
  - destruct (Z.even q); (split; [lia|]);
      [rewrite Hdown | rewrite Hup]; lia.
  - split; [lia|]. rewrite Hdown. lia.
  - split; [lia|]. rewrite Hup. lia.
Qed.

(** C7: the quantity is the notional amount divided by the observed price;
    a quotient strictly between 0 and 1 gives one unit, and any other
    quotient is rounded to a whole number of units, the integer nearest to
    it.  A notional of 50 at a price of 100 gives exactly 1. *)
Theorem order_quantity_rule (equity_amount latest_bid : float) :
  PrimFloat.eqb latest_bid 0%float = false ->
  let quantity := PrimFloat.div equity_amount latest_bid in
  (PrimFloat.ltb quantity 1%float = true ->
   PrimFloat.ltb 0%float quantity = true ->
   order_quantity equity_amount latest_bid = Ok 1) /\
  (PrimFloat.ltb quantity 1%float && PrimFloat.ltb 0%float quantity = false ->
   order_quantity equity_amount latest_bid = py_round quantity) /\
  (forall s m e, Prim2SF quantity = S754_finite s m e ->
     exists n, py_round quantity = Ok n /\
       (0 <= e -> Z.abs n = Z.pos m * 2 ^ e) /\
       (e < 0 -> 2 * Z.abs (Z.abs n * 2 ^ (- e) - Z.pos m) <= 2 ^ (- e))) /\
  order_quantity 50%float 100%float = Ok 1.
Proof.
  intros Hbid quantity. unfold order_quantity, py_truediv. rewrite Hbid.
  fold quantity. repeat split.
  - intros H1 H0. rewrite H1, H0. reflexivity.
  - intros H. rewrite H. reflexivity.
  - intros s m e Hsf. unfold py_round. rewrite Hsf.
    exists (if s then - round_half_even (Z.pos m) e
            else round_half_even (Z.pos m) e).
    split; [reflexivity|]. split.
    + intros He. rewrite (round_half_even_whole _ _ He).
      assert (0 <= 2 ^ e) by (apply Z.pow_nonneg; lia).
      destruct s; nia.
    + intros He.
      destruct (round_half_even_nearest (Z.pos m) e He ltac:(lia)) as [Hn Hh].
      destruct s.
      * rewrite Z.abs_opp, (Z.abs_eq _ Hn). exact Hh.
      * rewrite (Z.abs_eq _ Hn). exact Hh.
Qed.

Lemma order_quantity_rule_witness :
  order_quantity 50%float 100%float = Ok 1.
Proof.
  apply (order_quantity_rule 50%float 100%float); reflexivity.
Defined.

(** Quotients of 2.5 and 3.5 go to the even neighbour, a quotient of 0 and
    one below 0 stay away from the one-unit rule, and a price of 0 raises. *)
Example order_quantity_samples :
  order_quantity 250%float 100%float = Ok 2 /\
  order_quantity 350%float 100%float = Ok 4 /\
  order_quantity 0%float 100%float = Ok 0 /\
  order_quantity (-50)%float 100%float = Ok 0 /\
  order_quantity 50%float 0%float = Raise ZeroDivisionError.
Proof. vm_compute. repeat split. Qed.

(** ** Connection attempts *)

(** Unfolds the field updates and reads the fields off the records. *)
Ltac unfold_setters :=
  unfold with_ib_connected, with_client, with_universes,
    with_universe_accessor, with_contract_subscriptions,
    with_market_data_subscriptions, with_book, with_portfolio, with_clock,
    with_events;
  cbn [ib_connected client_id_counter universes universe_accessor
       contract_subscriptions market_data_subscriptions book portfolio
       market_data clock events fst snd].

(** Runs the monadic steps of the goal by value, on a session given field
    by field, so that the state stays one record. *)
Ltac run_steps :=
  cbv [bind ret raise gets modify emit now lift logging
       with_ib_connected with_client with_universes with_universe_accessor
       with_contract_subscriptions with_market_data_subscriptions with_book
       with_portfolio with_clock with_events
       ib_connected client_id_counter universes universe_accessor
       contract_subscriptions market_data_subscriptions book portfolio
       market_data clock events fst snd negb].

Lemma calls_app (a b : list Event) : calls (a ++ b) = (calls a + calls b)%nat.
Proof. unfold calls. rewrite List.filter_app, length_app. reflexivity. Qed.

Lemma attempts_app (a b : list Event) :
  attempts (a ++ b) = (attempts a + attempts b)%nat.
Proof. unfold attempts. rewrite List.filter_app, length_app. reflexivity. Qed.


Ltac calls_of_events :=
  repeat match goal with
         | |- context [calls [?e]] =>
             let v := eval cbv in (calls [e]) in change (calls [e]) with v
         end.

(** One attempt, case by case. *)
Lemma connect_body_cases (env : Env) (t : Trader) :
  connect_body env t
  = match env_store_connect env (calls (events t) + 1) with
    | Raise e =>
        (Raise e, with_client (env_client_id env)
                    (with_events (events t ++ [NewClient]) t))
    | Ok _ =>
        match env_client_connect env (calls (events t) + 3) with
        | Raise e => (Raise e, attempted env t)
        | Ok _ => (Ok tt, with_ib_connected true (attempted env t))
        end
    end.
Proof.
  destruct t as [c id us ua cs ms b pf md ck ev].
  unfold connect_body, clear_portfolio_universe, universe_accessor_get,
    universe_accessor_update, attempted, attempt_events.
  run_steps.
  rewrite !calls_app. calls_of_events.
  replace (calls ev + 1 + 0 + 1 + 1)%nat with (calls ev + 3)%nat by lia.
  rewrite <- !app_assoc. simpl.
  destruct (env_store_connect env (calls ev + 1)) as [[]|e]; [|reflexivity].
  destruct (env_client_connect env (calls ev + 3)) as [[]|e]; reflexivity.
Qed.

Lemma expo_pos (n : nat) : 0 < expo n.
Proof. unfold expo. assert (0 < 2 ^ Z.of_nat n) by (apply Z.pow_pos_nonneg; lia). lia. Qed.

Lemma full_jitter_bounds (env : Env) (n k : nat) :
  0 <= full_jitter env n (expo k) <= expo k.
Proof. unfold full_jitter. pose proof (expo_pos k). lia. Qed.


Section Refusing.

Variable env : Env.
Hypothesis store_answers : forall n, env_store_connect env n = Ok tt.
Hypothesis always_refuses :
  forall n, env_client_connect env n = Raise ConnectionRefusedError.

Lemma connect_body_refused (t : Trader) :
  connect_body env t = (Raise ConnectionRefusedError, attempted env t).
Proof.
  rewrite connect_body_cases, store_answers, always_refuses. reflexivity.
Qed.


End Refusing.


(** Whatever the gateway answers, the loop makes at most [S remaining]
    attempts. *)
Lemma retry_exception_attempts (env : Env) (remaining : nat) :
  forall (tries : nat) (start : Z) (t : Trader),
    exists new,
      events (snd (retry_exception env connect_body remaining tries start t))
      = events t ++ new /\
      (attempts new <= S remaining)%nat.
Proof.
  induction remaining as [|remaining IH]; intros tries start t;
    cbn [retry_exception]; rewrite connect_body_cases;
    destruct (env_store_connect env (calls (events t) + 1)) as [[]|e1];
    try destruct (env_client_connect env (calls (events t) + 3)) as [[]|e2];
    repeat match goal with
           | |- context [is_ConnectionRefusedError ?e] =>
               destruct (is_ConnectionRefusedError e)
           | |- context [max_time <=? ?x] => destruct (max_time <=? x)
           end;
    try (exists attempt_events; split; [reflexivity | vm_compute; lia]);
    try (exists [NewClient]; split; [reflexivity | vm_compute; lia]).
  all: match goal with
       | |- context [sleep ?s ?t0] =>
           destruct (IH (S tries) start (sleep s t0)) as (new & Hev & Hatt)
       end.
  all: eexists; split;
    [ rewrite Hev; unfold sleep, attempted; unfold_setters;
      rewrite <- !app_assoc; reflexivity
    | rewrite !attempts_app; unfold attempts at 1 2; simpl; lia ].
Qed.

Lemma connect_attempts_bounded (env : Env) (t : Trader) :
  exists new,
    events (snd (connect env t)) = events t ++ new /\
    (attempts new <= max_tries)%nat.
Proof. apply (retry_exception_attempts env (max_tries - 1) 1 (clock t) t). Qed.








(** With attempts of 10 ms and the longest waits, the sample gateway is
    tried eight times: the time budget ends the loop before the tenth
    attempt. *)
Example connect_refusing_sample :
  let r := connect Sample.refusing Sample.fresh in
  fst r = Raise ConnectionRefusedError /\
  attempts (events (snd r)) = 8%nat /\
  sleeps (events (snd r)) = [1000; 2000; 4000; 8000; 16000; 32000; 56940] /\
  clock (snd r) = 120020.
Proof. vm_compute. repeat split. Qed.

(** A refusal, then another error: the second attempt's error is raised
    at once, after one wait and two attempts. *)
Example connect_fatal_after_refusal :
  let r := connect refusing_then_failing Sample.fresh in
  fst r = Raise (OtherError 1) /\
  started (events (snd r)) = 2%nat /\
  sleeps (events (snd r)) = [1000] /\
  clock (snd r) = 1020.
Proof. vm_compute. repeat split. Qed.

(** ** Order entry *)

(** The stream cut to one value hands its observer one value at most. *)
Lemma take_one_values {A} (subject : list (notification A)) :
  (length (values (take 1 subject)) <= 1)%nat.
Proof. destruct subject as [|[a|e|] rest]; simpl; lia. Qed.

(** The snapshot, case by case on what the gateway sends: whatever follows
    the first value of the stream, the observer is sent that value alone. *)
Lemma price_snapshot_cases (env : Env) (contract : Contract) (t : Trader) :
  price_snapshot env contract t
  = (match env_ticks env (calls (events t)) contract with
     | Raise e => Raise e
     | Ok (OnNext latest_tick :: _) => Ok ([latest_tick], latest_tick)
     | Ok (OnError e :: _) => Raise e
     | Ok _ => Raise Suspended
     end,
     with_events (events t ++ [SubscribeContract contract true]) t).
Proof.
  destruct t as [c id us ua cs ms b pf md ck ev].
  unfold price_snapshot. run_steps.
  destruct (env_ticks env (calls ev) contract) as [[|[a|e|] rest]|e];
    reflexivity.
Qed.

(** The run, phase by phase: the snapshot, the sizing, the placement. *)
Lemma temp_handle_order_cases (env : Env) (contract : Contract)
    (action : Action) (equity_amount : float) (delayed : bool) (t : Trader) :
  temp_handle_order env contract action equity_amount delayed false t
  = match price_snapshot env contract t with
    | (Raise e, s) => (Raise e, s)
    | (Ok snapshot, s) =>
        match order_quantity equity_amount (bid (snd snapshot)) with
        | Raise x => (Raise x, s)
        | Ok quantity_int =>
            let order :=
              LimitOrder (Action_str action) quantity_int (bid (snd snapshot)) in
            (env_place_order env (calls (events s)) contract order,
             with_events
               (events s
                ++ [Log (LogDebug "temp_handle_order assessed quantity");
                    PlaceOrder contract order]) s)
        end
    end.
Proof.
  unfold temp_handle_order, bind at 1.
  destruct (price_snapshot env contract t) as [[snapshot|e] s]; [|reflexivity].
  destruct s as [c id us ua cs ms b pf md ck ev].
  unfold temp_place_order. run_steps.
  destruct (order_quantity equity_amount (bid (let (_, y) := snapshot in y)))
    as [quantity_int|x]; [|reflexivity].
  rewrite calls_app. calls_of_events. rewrite Nat.add_0_r.
  rewrite <- app_assoc. reflexivity.
Qed.



(** Whatever the gateway sends, with [debug] off an order is placed at most
    once, and at the bid of the first tick. *)
Lemma temp_handle_order_placed (env : Env) (contract : Contract)
    (action : Action) (equity_amount : float) (delayed : bool) (t : Trader) :
  let run := temp_handle_order env contract action equity_amount delayed false t in
  placed_orders (events (snd run)) = placed_orders (events t) \/
  exists latest_tick rest quantity_int,
    env_ticks env (calls (events t)) contract = Ok (OnNext latest_tick :: rest) /\
    placed_orders (events (snd run))
    = placed_orders (events t)
      ++ [LimitOrder (Action_str action) quantity_int (bid latest_tick)].
Proof.
  cbv zeta. rewrite temp_handle_order_cases, price_snapshot_cases.
  destruct (env_ticks env (calls (events t)) contract)
    as [[|[latest_tick|e|] rest]|e];
    try (left; cbn [snd]; simpl_events; unfold placed_orders;
         rewrite omap_app; simpl; apply app_nil_r).
  cbn [snd].
  destruct (order_quantity equity_amount (bid latest_tick))
    as [quantity_int|x].
  - right. exists latest_tick, rest, quantity_int. split; [reflexivity|].
    cbv zeta. cbn [snd]. simpl_events. unfold placed_orders.
    rewrite !omap_app. simpl. rewrite app_nil_r. reflexivity.
  - left. cbn [snd]. simpl_events. unfold placed_orders.
    rewrite omap_app. simpl. apply app_nil_r.
Qed.

(** ** The portfolio universe on connect *)

Lemma cleared_attempted (env : Env) (t : Trader) :
  cleared (with_ib_connected true (attempted env t)).
Proof.
  unfold cleared, portfolio_universe. unfold_setters. simpl.
  rewrite lookup_insert_eq. repeat split.
  exists (events t ++ [NewClient; Log (LogDebug "clearing portfolio universe");
                       UniverseGet portfolio_name]).
  unfold attempt_events. rewrite <- app_assoc. reflexivity.
Qed.

(** A [connect] that succeeds ends with an attempt that succeeded. *)
Lemma retry_exception_connected (env : Env) (remaining : nat) :
  forall (tries : nat) (start : Z) (t t' : Trader),
    retry_exception env connect_body remaining tries start t = (Ok tt, t') ->
    exists t0, t' = with_ib_connected true (attempted env t0).
Proof.
  induction remaining as [|remaining IH]; intros tries start t t';
    cbn [retry_exception]; rewrite connect_body_cases;
    destruct (env_store_connect env (calls (events t) + 1)) as [[]|e1];
    try destruct (env_client_connect env (calls (events t) + 3)) as [[]|e2];
    repeat match goal with
           | |- context [is_ConnectionRefusedError ?e] =>
               destruct (is_ConnectionRefusedError e)
           | |- context [max_time <=? ?x] => destruct (max_time <=? x)
           end;
    try discriminate;
    try (intros H; injection H as <-; exists t; reflexivity);
    apply IH.
Qed.

Lemma connect_cleared (env : Env) (t : Trader) :
  fst (connect env t) = Ok tt -> cleared (snd (connect env t)).
Proof.
  unfold connect. intros H.
  destruct (retry_exception env connect_body (max_tries - 1) 1 (clock t) t)
    as [r t'] eqn:Hr.
  simpl in H. subst r.
  destruct (retry_exception_connected _ _ _ _ _ _ Hr) as [t0 ->].
  apply cleared_attempted.
Qed.

(** C5, as the code has it: every [connect] that succeeds, the one of a
    plain start and the one [disconnected_event] makes on a reconnect alike,
    leaves the "portfolio" universe cleared and stored so before the
    connection is made, and the reconciliation of a start runs from that
    state. *)
Theorem connect_clears_portfolio_universe (env : Env) (t : Trader) :
  (fst (connect env t) = Ok tt -> cleared (snd (connect env t))) /\
  (fst (disconnected_event env t) = Ok tt ->
   cleared (snd (disconnected_event env t))) /\
  startup env t
  = match connect env t with
    | (Ok _, t1) => connected_event env t1
    | (Raise e, t1) => (Raise e, t1)
    end.
Proof.
  split; [apply connect_cleared|]. split; [|reflexivity].
  unfold disconnected_event, bind, logging, emit, modify.
  cbn [fst snd]. apply connect_cleared.
Qed.

Lemma connect_clears_portfolio_universe_witness :
  cleared (snd (disconnected_event Sample.gateway Sample.connected)).
Proof.
  apply (connect_clears_portfolio_universe Sample.gateway Sample.connected).
  reflexivity.
Defined.

(** A reconnect through [disconnected_event] does not keep the universe:
    on the sample session it held an entry before and is empty after. *)
Lemma disconnected_event_clears_universe :
  fst (disconnected_event Sample.gateway Sample.connected) = Ok tt /\
  portfolio_universe Sample.connected
  = [from_contract_details (Sample.details Sample.msft)] /\
  portfolio_universe (snd (disconnected_event Sample.gateway Sample.connected))
  = [] /\
  portfolio_universe (snd (disconnected_event Sample.gateway Sample.connected))
  <> portfolio_universe Sample.connected.
Proof.
  repeat split; try (vm_compute; reflexivity).
  vm_compute. discriminate.
Qed.

(** ** Reconciliation keeps the stable keys unique *)

Lemma isin_definition_false (p : PortfolioItem)
    (defs : list SecurityDefinition) :
  isin defs (definition_matches p) = Ok false ->
  ~ In (conId (contract p)) (map sd_conId defs).
Proof.
  induction defs as [|d defs IH]; simpl; [tauto|].
  destruct (sd_conId d =? conId (contract p)) eqn:Hd; [discriminate|].
  apply Z.eqb_neq in Hd. intros H [Heq|Hin]; [congruence | exact (IH H Hin)].
Qed.

Lemma isin_subscription_false (p : PortfolioItem)
    (ks : list (option SecurityDefinition)) :
  isin ks (subscription_matches p) = Ok false ->
  ~ In (conId (contract p)) (omap (fmap sd_conId) ks) /\ ~ In None ks.
Proof.
  induction ks as [|[s|] ks IH]; simpl; [tauto| |discriminate].
  destruct (sd_conId s =? conId (contract p)) eqn:Hs; [discriminate|].
  apply Z.eqb_neq in Hs. intros H. destruct (IH H) as [Hin Hnone]. split.
  - intros [Heq|Hin']; [congruence | exact (Hin Hin')].
  - intros [Heq|Hin']; [discriminate | exact (Hnone Hin')].
Qed.

Lemma find_contract_conId (defs : list SecurityDefinition) (c : Contract)
    (s : SecurityDefinition) :
  find_contract defs c = Some s -> sd_conId s = conId c.
Proof.
  unfold find_contract. intros H. apply find_some in H as [_ H].
  apply Z.eqb_eq. exact H.
Qed.

Lemma keys_dict_set {K V} (key_eqb : K -> K -> bool) (k : K) (v : V)
    (d : list (K * V)) :
  keys (dict_set key_eqb k v d) = keys d \/
  keys (dict_set key_eqb k v d) = keys d ++ [k].
Proof.
  unfold keys. induction d as [|[k' v'] d IH]; simpl.
  - right. reflexivity.
  - destruct (key_eqb k' k); simpl; [left; reflexivity|].
    destruct IH as [IH|IH]; rewrite IH; [left | right]; reflexivity.
Qed.

Lemma at_most_one_snoc (ids : list Z) (c : Z) :
  at_most_one_per_key ids -> ~ In c ids -> at_most_one_per_key (ids ++ [c]).
Proof.
  intros Hids Hc x. rewrite count_occ_app. simpl.
  destruct (Z.eq_dec c x) as [->|Hne].
  - apply (count_occ_not_In Z.eq_dec) in Hc. rewrite Hc. lia.
  - specialize (Hids x). lia.
Qed.

(** What one reconciliation writes: the universe is left alone or gets the
    resolved definition of an item it did not hold; the subscription map is
    left alone or gets the key [find_contract] gives, when no key matched. *)
Lemma update_portfolio_universe_writes (env : Env) (p : PortfolioItem)
    (t : Trader) :
  let t' := snd (update_portfolio_universe env p t) in
  (portfolio_universe t' = portfolio_universe t \/
   (isin (portfolio_universe t) (definition_matches p) = Ok false /\
    exists n d rest,
      env_contract_details env n (contract p) = Ok (d :: rest) /\
      portfolio_universe t'
      = portfolio_universe t ++ [from_contract_details d])) /\
  (market_data_subscriptions t' = market_data_subscriptions t \/
   (isin (keys (market_data_subscriptions t)) (subscription_matches p)
    = Ok false /\
    exists stream,
      market_data_subscriptions t'
      = dict_set (env_key_eqb env)
                 (find_contract (portfolio_universe t') (contract p)) stream
                 (market_data_subscriptions t))).
Proof.
  cbv zeta.
  unfold update_portfolio_universe, universe_accessor_get,
    universe_accessor_update, logging, bind, now, emit, modify, lift, gets, ret.
  unfold_setters. fold (portfolio_universe t).
  destruct (isin (portfolio_universe t) (definition_matches p))
    as [[|]|e] eqn:Hin; cbn [negb fst snd]; try (split; left; reflexivity).
  match goal with
  | |- context [env_contract_details env ?n (contract p)] =>
      destruct (env_contract_details env n (contract p)) as [ds|e] eqn:Hds
  end; unfold_setters; [|split; left; reflexivity].
  destruct (isin (keys (market_data_subscriptions t)) (subscription_matches p))
    as [[|]|e] eqn:Hsub; unfold_setters; cbn [negb].
  - split; [|left; reflexivity].
    unfold portfolio_universe. unfold_setters. rewrite lookup_insert_eq. simpl.
    destruct ds as [|d rest]; [left; reflexivity|].
    right. split; [reflexivity|]. eauto.
  - match goal with
    | |- context [env_subscribe_history env ?n (contract p)] =>
        destruct (env_subscribe_history env n (contract p)) as [[]|e]
    end; unfold_setters.
    + split.
      * unfold portfolio_universe. unfold_setters. rewrite lookup_insert_eq.
        simpl. destruct ds as [|d rest]; [left; reflexivity|].
        right. split; [reflexivity|]. eauto.
      * right. split; [reflexivity|]. eexists.
        unfold portfolio_universe. unfold_setters. rewrite lookup_insert_eq.
        reflexivity.
    + split; [|left; reflexivity].
      unfold portfolio_universe. unfold_setters. rewrite lookup_insert_eq.
      simpl. destruct ds as [|d rest]; [left; reflexivity|].
      right. split; [reflexivity|]. eauto.
  - split; [|left; reflexivity].
    unfold portfolio_universe. unfold_setters. rewrite lookup_insert_eq. simpl.
    destruct ds as [|d rest]; [left; reflexivity|].
    right. split; [reflexivity|]. eauto.
Qed.

Lemma keeps_consistent_refl (t : Trader) : keeps_consistent t t.
Proof. intros H. exact H. Qed.

Lemma keeps_consistent_trans (t1 t2 t3 : Trader) :
  keeps_consistent t1 t2 -> keeps_consistent t2 t3 -> keeps_consistent t1 t3.
Proof. unfold keeps_consistent. auto. Qed.

Lemma keeps_consistent_same (t t' : Trader) :
  universe_accessor t' = universe_accessor t ->
  market_data_subscriptions t' = market_data_subscriptions t ->
  keeps_consistent t t'.
Proof.
  intros Hu Hs. unfold keeps_consistent, consistent, universe_conIds,
    subscription_conIds, portfolio_universe. rewrite Hu, Hs. tauto.
Qed.

Ltac keeps_side :=
  first [ exact keeps_consistent_refl | exact keeps_consistent_trans
        | assumption
        | intros; apply keeps_consistent_same; reflexivity ].

Section Faithful.

Variable env : Env.
Hypothesis faithful : resolves_faithfully env.

Lemma consistent_update_portfolio_universe (p : PortfolioItem) :
  stable keeps_consistent (update_portfolio_universe env p).
Proof.
  intros t [Hu Hs].
  destruct (update_portfolio_universe_writes env p t) as [Hu' Hs'].
  cbv zeta in *. split.
  - unfold universe_conIds.
    destruct Hu' as [-> | [Hin (n & d & rest & Hd & ->)]]; [exact Hu|].
    rewrite map_app. simpl. apply at_most_one_snoc; [exact Hu|].
    replace (conId (cd_contract d)) with (conId (contract p))
      by (symmetry; exact (faithful n (contract p) d rest Hd)).
    apply isin_definition_false. exact Hin.
  - unfold subscription_conIds.
    destruct Hs' as [-> | [Hin [stream ->]]]; [exact Hs|].
    destruct (keys_dict_set (env_key_eqb env)
                (find_contract
                   (portfolio_universe (snd (update_portfolio_universe env p t)))
                   (contract p))
                stream (market_data_subscriptions t)) as [-> | ->];
      [exact Hs|].
    rewrite omap_app.
    destruct (find_contract _ (contract p)) as [s|] eqn:Hfind; simpl.
    + apply at_most_one_snoc; [exact Hs|].
      rewrite (find_contract_conId _ _ _ Hfind).
      apply isin_subscription_false. exact Hin.
    + rewrite app_nil_r. exact Hs.
Qed.

Lemma consistent_on_portfolio_item (locals : frame) (p : PortfolioItem) :
  stable keeps_consistent (on_portfolio_item env locals p).
Proof.
  apply stable_on_portfolio_item;
    first [ exact consistent_update_portfolio_universe | keeps_side ].
Qed.

Lemma consistent_feed_portfolio_items (items : list PortfolioItem)
    (locals : frame) :
  stable keeps_consistent (feed_portfolio_items env items locals).
Proof.
  apply stable_for_each_frame; [keeps_side | keeps_side |].
  intros fr p. apply consistent_on_portfolio_item.
Qed.

Lemma consistent_setup_subscriptions :
  stable keeps_consistent (setup_subscriptions env).
Proof.
  apply stable_setup_subscriptions;
    first [ exact consistent_update_portfolio_universe | keeps_side ].
Qed.

End Faithful.

Lemma membership_by_stable_key (defs : list SecurityDefinition)
    (ks : list (option SecurityDefinition)) (p1 p2 : PortfolioItem) :
  conId (contract p1) = conId (contract p2) ->
  isin defs (definition_matches p1) = isin defs (definition_matches p2) /\
  isin ks (subscription_matches p1) = isin ks (subscription_matches p2).
Proof.
  intros Hkey. split.
  - induction defs as [|d defs IH]; simpl; [reflexivity|].
    rewrite Hkey, IH. reflexivity.
  - induction ks as [|[s|] ks IH]; simpl; [reflexivity| |reflexivity].
    rewrite Hkey, IH. reflexivity.
Qed.

(** C1: from a state with at most one universe entry and at most one
    subscription per stable key, and with a gateway that resolves a contract
    to details of that contract, every sequence of portfolio items fed
    through the reconciliation, and every run and re-run of
    [setup_subscriptions], leave at most one entry of the "portfolio"
    universe and at most one market-data subscription per stable key; so do
    two items that share a key.  Both membership tests compare stable keys:
    two items with the same [conId] get the same answers, whatever else
    differs. *)
Theorem reconciliation_keeps_keys_unique (env : Env) (t : Trader) :
  resolves_faithfully env ->
  consistent t ->
  (forall items locals,
     consistent (snd (feed_portfolio_items env items locals t))) /\
  (forall items,
     consistent (snd (for_each items (update_portfolio_universe env) t))) /\
  consistent (snd (setup_subscriptions env t)) /\
  consistent (snd (setup_subscriptions env (snd (setup_subscriptions env t)))) /\
  (forall p1 p2 locals,
     conId (contract p1) = conId (contract p2) ->
     let t' := snd (feed_portfolio_items env [p1; p2] locals t) in
     (count_occ Z.eq_dec (universe_conIds t') (conId (contract p1)) <= 1)%nat /\
     (count_occ Z.eq_dec (subscription_conIds t') (conId (contract p1)) <= 1)%nat) /\
  (forall defs ks p1 p2,
     conId (contract p1) = conId (contract p2) ->
     isin defs (definition_matches p1) = isin defs (definition_matches p2) /\
     isin ks (subscription_matches p1) = isin ks (subscription_matches p2)).
Proof.
  intros Hfaithful Ht.
  assert (Hsetup : forall t0, consistent t0 ->
                              consistent (snd (setup_subscriptions env t0))).
  { intros t0. apply (consistent_setup_subscriptions env Hfaithful t0). }
  split.
  { intros items locals.
    apply (consistent_feed_portfolio_items env Hfaithful items locals t Ht). }
  split.
  { intros items.
    apply (stable_for_each keeps_consistent keeps_consistent_refl
             keeps_consistent_trans items (update_portfolio_universe env)
             (consistent_update_portfolio_universe env Hfaithful) t Ht). }
  split; [apply Hsetup; exact Ht|].
  split; [apply Hsetup, Hsetup; exact Ht|].
  split.
  { intros p1 p2 locals _. cbv zeta.
    destruct (consistent_feed_portfolio_items env Hfaithful [p1; p2] locals t Ht)
      as [Hu Hs].
    split; [apply Hu | apply Hs]. }
  intros defs ks p1 p2. apply membership_by_stable_key.
Qed.

Lemma sample_gateway_resolves_faithfully : resolves_faithfully Sample.gateway.
Proof.
  intros n c d rest H. simpl in H. injection H as <- _. reflexivity.
Qed.

Lemma sample_connected_consistent : consistent Sample.connected.
Proof.
  split; intros c.
  - change (universe_conIds Sample.connected) with [272093].
    cbn [count_occ]. destruct (Z.eq_dec 272093 c); lia.
  - change (subscription_conIds Sample.connected) with (@nil Z).
    cbn [count_occ]. lia.
Qed.

Lemma reconciliation_keeps_keys_unique_witness :
  consistent
    (snd (setup_subscriptions Sample.gateway
            (snd (setup_subscriptions Sample.gateway Sample.connected)))).
Proof.
  apply (reconciliation_keeps_keys_unique Sample.gateway Sample.connected
           sample_gateway_resolves_faithfully sample_connected_consistent).
Defined.

(** After [connect] the session is consistent whatever it held before. *)
Lemma connect_consistent (env : Env) (t : Trader) :
  fst (connect env t) = Ok tt -> consistent (snd (connect env t)).
Proof.
  intros H. destruct (connect_cleared env t H) as (Hu & _ & Hs & _).
  unfold consistent, universe_conIds, subscription_conIds.
  rewrite Hu, Hs. split; intros c; simpl; lia.
Qed.

(** The gateway reports three items, two of them for one instrument: the
    universe gets two entries and two subscriptions are opened, and a second
    run of the set-up adds none. *)
Example three_items_two_keys :
  let once := snd (startup Sample.gateway Sample.fresh) in
  let twice := snd (setup_subscriptions Sample.gateway once) in
  universe_conIds once = [265598; 272093] /\
  subscription_conIds once = [265598; 272093] /\
  universe_conIds twice = [265598; 272093] /\
  subscription_conIds twice = [265598; 272093].
Proof. vm_compute. repeat split. Qed.

(** A gateway that answers with the details of another contract breaks the
    universe's uniqueness: the hypothesis on the gateway is needed. *)
Example unfaithful_gateway_duplicates :
  let env :=
    {| env_store_connect := env_store_connect Sample.gateway;
       env_client_connect := env_client_connect Sample.gateway;
       env_client_id := 7;
       env_duration := env_duration Sample.gateway;
       env_jitter := env_jitter Sample.gateway;
       env_book_subscribe := env_book_subscribe Sample.gateway;
       env_subscribe_positions := env_subscribe_positions Sample.gateway;
       env_subscribe_portfolio := env_subscribe_portfolio Sample.gateway;
       env_ib_portfolio := fun _ => [];
       env_open_orders := env_open_orders Sample.gateway;
       env_contract_details := fun _ _ => Ok [Sample.details Sample.msft];
       env_subscribe_history := env_subscribe_history Sample.gateway;
       env_ticks := env_ticks Sample.gateway;
       env_place_order := env_place_order Sample.gateway;
       env_cancel_order := env_cancel_order Sample.gateway;
       env_key_eqb := Sample.key_eqb;
       env_round2 := fun x => x |} in
  universe_conIds
    (snd (feed_portfolio_items env [Sample.item Sample.aapl 1]
            {["error" := false]} Sample.connected))
  = [272093; 272093].
Proof. vm_compute. reflexivity. Qed.

(** ** A resolution that fails *)

(** An exception of the gateway's resolution is logged by the handler and
    aborts that item only: the universe and the subscriptions are as before,
    and the delivery returns. *)
Lemma resolution_error_is_reported_and_skipped (env : Env) (locals : frame)
    (p : PortfolioItem) (t : Trader) (e : exn) :
  isin (portfolio_universe t) (definition_matches p) = Ok false ->
  env_contract_details env (calls (events t) + 1) (contract p) = Raise e ->
  is_Suspended e = false ->
  let r := on_portfolio_item env locals p t in
  fst r = Ok locals /\
  universe_accessor (snd r) = universe_accessor t /\
  market_data_subscriptions (snd r) = market_data_subscriptions t /\
  List.filter is_exception_log (events (snd r))
  = List.filter is_exception_log (events t) ++ [Log (LogException e)].
Proof.
  intros Hin Hds Hsusp. cbv zeta.
  destruct t as [c id us ua cs ms b pf md ck ev].
  unfold portfolio_universe in Hin. cbn [universe_accessor events] in *.
  unfold on_portfolio_item, cached_observer_asend, try_except, update_portfolio,
    add_portfolio_item, update_portfolio_universe, universe_accessor_get,
    universe_accessor_update, handle_subscription_exception.
  run_steps. cbn [portfolio_items positions].
  rewrite Hin. cbv [negb].
  rewrite !calls_app. calls_of_events.
  replace (calls ev + 0 + 1)%nat with (calls ev + 1)%nat by lia.
  rewrite Hds, Hsusp.
  cbn [fst snd universe_accessor market_data_subscriptions events].
  repeat split.
  rewrite !List.filter_app. simpl. rewrite !app_nil_r. reflexivity.
Qed.

(** C6, on the code: when the gateway has no details for one item, the
    item is subscribed under the key [None]; the subscription test of the
    next new item then fails on that key, so that item's stream is never
    opened, although the same item alone gets its stream. *)
Theorem empty_resolution_blocks_later_items :
  let env := Sample.unresolved_aapl in
  let started := snd (connect env Sample.fresh) in
  let both :=
    snd (feed_portfolio_items env [Sample.item Sample.aapl 1;
                                   Sample.item Sample.msft 2]
           {["error" := false]} started) in
  let alone :=
    snd (feed_portfolio_items env [Sample.item Sample.msft 2]
           {["error" := false]} started) in
  keys (market_data_subscriptions both) = [None] /\
  universe_conIds both = [272093] /\
  List.filter is_exception_log (events both)
  = [Log (LogException AttributeError)] /\
  List.filter (fun e => match e with
                        | SubscribeContractHistory _ _ _ => true
                        | _ => false
                        end) (events both)
  = [SubscribeContractHistory Sample.aapl 30 TRADES] /\
  subscription_conIds alone = [272093] /\
  List.filter (fun e => match e with
                        | SubscribeContractHistory _ _ _ => true
                        | _ => false
                        end) (events alone)
  = [SubscribeContractHistory Sample.msft 30 TRADES].
Proof. vm_compute. repeat split. Qed.

(** * Further properties *)

(** ** One reconciliation *)

(** The reconciliation of an item the universe holds. *)
Lemma known_item_reads_only (env : Env) (p : PortfolioItem) (t : Trader) :
  isin (portfolio_universe t) (definition_matches p) = Ok true ->
  update_portfolio_universe env p t
  = (Ok tt, with_events (events t ++ [UniverseGet portfolio_name]) t).
Proof.
  intros Hin. destruct t as [c id us ua cs ms b pf md ck ev].
  unfold portfolio_universe in Hin. cbn [universe_accessor] in Hin.
  unfold update_portfolio_universe, universe_accessor_get.
  run_steps. rewrite Hin. reflexivity.
Qed.

(** An item whose instrument the universe holds is left at the membership
    test: the store is read, and nothing else happens, no resolution, no
    write of the store and no subscription, even when the instrument has no
    subscription. *)
Theorem reconcile_known_item (env : Env) (p : PortfolioItem) (t : Trader) :
  isin (portfolio_universe t) (definition_matches p) = Ok true ->
  update_portfolio_universe env p t
  = (Ok tt, with_events (events t ++ [UniverseGet portfolio_name]) t) /\
  gateway_calls (events (snd (update_portfolio_universe env p t)))
  = gateway_calls (events t) /\
  same_attributes t (snd (update_portfolio_universe env p t)).
Proof.
  intros Hin. rewrite (known_item_reads_only env p t Hin).
  split; [reflexivity|]. split; [|reflexivity].
  cbn [snd]. unfold gateway_calls. simpl_events.
  rewrite List.filter_app. simpl. apply app_nil_r.
Qed.

Lemma reconcile_known_item_witness :
  update_portfolio_universe Sample.gateway (Sample.item Sample.msft 2)
    Sample.connected
  = (Ok tt, with_events (events Sample.connected ++ [UniverseGet portfolio_name])
              Sample.connected).
Proof.
  apply (reconcile_known_item Sample.gateway (Sample.item Sample.msft 2)
           Sample.connected).
  reflexivity.
Defined.

(** One reconciliation calls the gateway at most twice, for the item's own
    contract: never, or once to resolve it, or once to resolve it and once
    to open its 30-day stream of trades, in that order. *)
Theorem reconcile_gateway_calls (env : Env) (p : PortfolioItem) (t : Trader) :
  exists new,
    events (snd (update_portfolio_universe env p t)) = events t ++ new /\
    (gateway_calls new = [] \/
     gateway_calls new = [GetContractDetails (contract p)] \/
     gateway_calls new
     = [GetContractDetails (contract p);
        SubscribeContractHistory (contract p) 30 TRADES]).
Proof.
  destruct t as [c id us ua cs ms b pf md ck ev].
  unfold update_portfolio_universe, universe_accessor_get,
    universe_accessor_update.
  run_steps.
  destruct (isin _ (definition_matches p)) as [[|]|e]; cbv [negb];
    try (eexists; split; [reflexivity | left; reflexivity]).
  match goal with
  | |- context [env_contract_details env ?n (contract p)] =>
      destruct (env_contract_details env n (contract p)) as [ds|e]
  end.
  2:{ eexists. split; [rewrite <- !app_assoc; reflexivity|].
      right. left. reflexivity. }
  destruct (isin (keys ms) (subscription_matches p)) as [[|]|e]; cbv [negb];
    try (eexists; split; [rewrite <- !app_assoc; reflexivity|];
         right; left; reflexivity).
  match goal with
  | |- context [env_subscribe_history env ?n (contract p)] =>
      destruct (env_subscribe_history env n (contract p)) as [[]|e]
  end;
    (eexists; split; [rewrite <- !app_assoc; reflexivity|];
     right; right; reflexivity).
Qed.

Lemma isin_definition_snoc (p : PortfolioItem) (defs : list SecurityDefinition)
    (d : SecurityDefinition) :
  sd_conId d = conId (contract p) ->
  isin (defs ++ [d]) (definition_matches p) = Ok true.
Proof.
  intros Hd. induction defs as [|d' defs IH]; simpl.
  - rewrite Hd, Z.eqb_refl. reflexivity.
  - destruct (sd_conId d' =? conId (contract p)); [reflexivity | exact IH].
Qed.

(** The universe after the reconciliation of an item it did not hold: the
    first of the details the gateway gave is appended, and nothing when it
    gave none. *)
Lemma reconcile_universe_after (env : Env) (p : PortfolioItem) (t : Trader)
    (ds : list ContractDetails) :
  isin (portfolio_universe t) (definition_matches p) = Ok false ->
  env_contract_details env (calls (events t) + 1) (contract p) = Ok ds ->
  portfolio_universe (snd (update_portfolio_universe env p t))
  = portfolio_universe t
    ++ match ds with d :: _ => [from_contract_details d] | [] => [] end.
Proof.
  intros Hin Hds. destruct t as [c id us ua cs ms b pf md ck ev].
  unfold portfolio_universe in *. cbn [universe_accessor events] in *.
  unfold update_portfolio_universe, universe_accessor_get,
    universe_accessor_update.
  run_steps. rewrite Hin. cbv [negb].
  rewrite calls_app. calls_of_events. rewrite Hds.
  assert (Hstored :
            default [] (<[portfolio_name :=
                           match ds with
                           | [] => default [] (ua !! portfolio_name)
                           | d :: _ => default [] (ua !! portfolio_name)
                                       ++ [from_contract_details d]
                           end]> ua !! portfolio_name)
            = default [] (ua !! portfolio_name)
              ++ match ds with d :: _ => [from_contract_details d] | [] => [] end).
  { rewrite lookup_insert_eq. simpl. destruct ds; [rewrite app_nil_r|];
      reflexivity. }
  destruct (isin (keys ms) (subscription_matches p)) as [[|]|e]; cbv [negb];
    try exact Hstored.
  match goal with
  | |- context [env_subscribe_history env ?n (contract p)] =>
      destruct (env_subscribe_history env n (contract p)) as [[]|e]
  end; exact Hstored.
Qed.

(** Once an item has been resolved, a later item with the same stable key,
    the same gateway object or another, is left at the membership test: it
    is not resolved and not subscribed a second time. *)
Theorem reconcile_resolved_once (env : Env) (p p2 : PortfolioItem) (t : Trader)
    (d : ContractDetails) (rest : list ContractDetails) :
  resolves_faithfully env ->
  isin (portfolio_universe t) (definition_matches p) = Ok false ->
  env_contract_details env (calls (events t) + 1) (contract p) = Ok (d :: rest) ->
  conId (contract p2) = conId (contract p) ->
  let t1 := snd (update_portfolio_universe env p t) in
  update_portfolio_universe env p2 t1
  = (Ok tt, with_events (events t1 ++ [UniverseGet portfolio_name]) t1).
Proof.
  intros Hfaithful Hin Hds Hkey t1. apply known_item_reads_only.
  unfold t1. rewrite (reconcile_universe_after env p t (d :: rest) Hin Hds).
  apply isin_definition_snoc. simpl.
  rewrite (Hfaithful _ _ _ _ Hds). symmetry. exact Hkey.
Qed.

Lemma reconcile_resolved_once_witness :
  let t1 := snd (update_portfolio_universe Sample.gateway
                   (Sample.item Sample.aapl 1) Sample.connected) in
  update_portfolio_universe Sample.gateway (Sample.item Sample.aapl' 3) t1
  = (Ok tt, with_events (events t1 ++ [UniverseGet portfolio_name]) t1).
Proof.
  apply (reconcile_resolved_once Sample.gateway (Sample.item Sample.aapl 1)
           (Sample.item Sample.aapl' 3) Sample.connected
           (Sample.details Sample.aapl) []
           sample_gateway_resolves_faithfully);
    reflexivity.
Defined.

(** ** What reconciliation keeps *)

Lemma grows_refl (t : Trader) : grows t t.
Proof. split; exists []; symmetry; apply app_nil_r. Qed.

Lemma grows_trans (t1 t2 t3 : Trader) : grows t1 t2 -> grows t2 t3 -> grows t1 t3.
Proof.
  intros [[u1 Hu1] [k1 Hk1]] [[u2 Hu2] [k2 Hk2]]. split.
  - exists (u1 ++ u2). rewrite Hu2, Hu1. symmetry. apply app_assoc.
  - exists (k1 ++ k2). rewrite Hk2, Hk1. symmetry. apply app_assoc.
Qed.

Lemma grows_same (t t' : Trader) :
  universe_accessor t' = universe_accessor t ->
  market_data_subscriptions t' = market_data_subscriptions t ->
  grows t t'.
Proof.
  intros Hu Hs. unfold grows, portfolio_universe. rewrite Hu, Hs.
  split; exists []; symmetry; apply app_nil_r.
Qed.

Ltac grows_side :=
  first [ exact grows_refl | exact grows_trans | assumption
        | intros; apply grows_same; reflexivity ].

Lemma grows_update_portfolio_universe (env : Env) (p : PortfolioItem) :
  stable grows (update_portfolio_universe env p).
Proof.
  intros t. destruct (update_portfolio_universe_writes env p t) as [Hu Hs].
  cbv zeta in *. split.
  - destruct Hu as [-> | [_ (n & d & rest & _ & ->)]].
    + exists []. symmetry. apply app_nil_r.
    + eexists. reflexivity.
  - destruct Hs as [-> | [_ [stream ->]]].
    + exists []. symmetry. apply app_nil_r.
    + destruct (keys_dict_set (env_key_eqb env)
                  (find_contract
                     (portfolio_universe (snd (update_portfolio_universe env p t)))
                     (contract p))
                  stream (market_data_subscriptions t)) as [-> | ->].
      * exists []. symmetry. apply app_nil_r.
      * eexists. reflexivity.
Qed.

(** Feeding portfolio items and running the set-up never drop or reorder an
    entry of the "portfolio" universe or a key of the subscription map: both
    only get longer at the end. *)
Theorem reconciliation_only_grows (env : Env) (t : Trader) :
  (forall p, grows t (snd (update_portfolio_universe env p t))) /\
  (forall items locals, grows t (snd (feed_portfolio_items env items locals t))) /\
  grows t (snd (setup_subscriptions env t)).
Proof.
  split; [intros p; apply grows_update_portfolio_universe|]. split.
  - intros items locals.
    apply (stable_feed_portfolio_items grows); try grows_side.
    exact (grows_update_portfolio_universe env).
  - apply (stable_setup_subscriptions grows); try grows_side.
    exact (grows_update_portfolio_universe env).
Qed.

Lemma keeps_subscribed_within_same (t t' : Trader) :
  universe_accessor t' = universe_accessor t ->
  market_data_subscriptions t' = market_data_subscriptions t ->
  keeps_subscribed_within t t'.
Proof.
  intros Hu Hs. unfold keeps_subscribed_within, subscribed_within_universe,
    universe_conIds, portfolio_universe. rewrite Hu, Hs. tauto.
Qed.

Ltac within_side :=
  first [ (intros ? H; exact H)
        | (intros ? ? ? H1 H2 H; exact (H2 (H1 H)))
        | assumption
        | intros; apply keeps_subscribed_within_same; reflexivity ].

Lemma within_update_portfolio_universe (env : Env) (p : PortfolioItem) :
  stable keeps_subscribed_within (update_portfolio_universe env p).
Proof.
  intros t Hinv s Hs.
  destruct (grows_update_portfolio_universe env p t) as [[added Hadd] _].
  destruct (update_portfolio_universe_writes env p t) as [_ Hsub].
  cbv zeta in *.
  set (t' := snd (update_portfolio_universe env p t)) in *.
  assert (Hold : forall x, In x (universe_conIds t) -> In x (universe_conIds t')).
  { intros x Hx. unfold universe_conIds. rewrite Hadd, map_app.
    apply in_or_app. left. exact Hx. }
  destruct Hsub as [Heq | [_ [stream Heq]]]; rewrite Heq in Hs.
  - apply Hold, Hinv. exact Hs.
  - destruct (keys_dict_set (env_key_eqb env)
                (find_contract (portfolio_universe t') (contract p))
                stream (market_data_subscriptions t)) as [Hk | Hk];
      rewrite Hk in Hs.
    + apply Hold, Hinv. exact Hs.
    + apply in_app_or in Hs. destruct Hs as [Hs | [Hs | []]].
      * apply Hold, Hinv. exact Hs.
      * unfold find_contract in Hs. apply find_some in Hs as [Hs _].
        unfold universe_conIds. apply in_map. exact Hs.
Qed.

(** A subscription is only ever held for an instrument of the "portfolio"
    universe: the property holds after every successful [connect], and
    feeding items and running the set-up keep it. *)
Theorem subscriptions_stay_within_universe (env : Env) (t : Trader) :
  (fst (connect env t) = Ok tt ->
   subscribed_within_universe (snd (connect env t))) /\
  (subscribed_within_universe t ->
   (forall items locals,
      subscribed_within_universe
        (snd (feed_portfolio_items env items locals t))) /\
   subscribed_within_universe (snd (setup_subscriptions env t))).
Proof.
  split.
  - intros H. destruct (connect_cleared env t H) as (_ & _ & Hs & _).
    intros s Hin. rewrite Hs in Hin. destruct Hin.
  - intros Hinv. split.
    + intros items locals.
      apply (stable_feed_portfolio_items keeps_subscribed_within);
        try within_side.
      exact (within_update_portfolio_universe env).
    + apply (stable_setup_subscriptions keeps_subscribed_within);
        try within_side.
      exact (within_update_portfolio_universe env).
Qed.

Lemma subscriptions_stay_within_universe_witness :
  subscribed_within_universe
    (snd (setup_subscriptions Sample.gateway Sample.connected)).
Proof.
  apply (subscriptions_stay_within_universe Sample.gateway Sample.connected).
  intros s Hin. destruct Hin.
Defined.

(** ** The set-up and the errors of single items *)

Lemma succeeds_ret {A} (a : A) : succeeds (ret a).
Proof. intros t. reflexivity. Qed.

Lemma succeeds_gets {A} (f : Trader -> A) : succeeds (gets f).
Proof. intros t. reflexivity. Qed.

Lemma succeeds_now : succeeds now.
Proof. intros t. reflexivity. Qed.

Lemma succeeds_emit (e : Event) : succeeds (emit e).
Proof. intros t. reflexivity. Qed.

Lemma succeeds_modify (f : Trader -> Trader) : succeeds (modify f).
Proof. intros t. reflexivity. Qed.

Lemma succeeds_lift {A} (a : A) : succeeds (lift (Ok a)).
Proof. intros t. reflexivity. Qed.

Lemma succeeds_bind {A B} (m : M A) (k : A -> M B) :
  succeeds m -> (forall a, succeeds (k a)) -> succeeds (bind m k).
Proof.
  intros Hm Hk t. unfold bind. specialize (Hm t).
  destruct (m t) as [[a|e] t']; simpl in *; [apply Hk | discriminate].
Qed.

Lemma succeeds_for_each {A} (l : list A) (body : A -> M unit) :
  (forall x, succeeds (body x)) -> succeeds (for_each l body).
Proof.
  intros Hb. induction l as [|x l IH]; simpl.
  - apply succeeds_ret.
  - apply succeeds_bind; [apply Hb | intros _; exact IH].
Qed.

Lemma succeeds_for_each_frame {A} (l : list A) (body : frame -> A -> M frame) :
  (forall fr x, succeeds (body fr x)) ->
  forall fr, succeeds (for_each_frame l body fr).
Proof.
  intros Hb. induction l as [|x l IH]; intros fr; simpl.
  - apply succeeds_ret.
  - apply succeeds_bind; [apply Hb | intros fr'; apply IH].
Qed.

(** What [update_portfolio_universe] can raise: the [AttributeError] of the
    subscription test, or what the gateway raised. *)
Lemma update_portfolio_universe_raises (env : Env) (p : PortfolioItem)
    (t : Trader) (e : exn) :
  fst (update_portfolio_universe env p t) = Raise e ->
  e = AttributeError \/
  (exists n, env_contract_details env n (contract p) = Raise e) \/
  (exists n, env_subscribe_history env n (contract p) = Raise e).
Proof.
  destruct t as [c id us ua cs ms b pf md ck ev].
  unfold update_portfolio_universe, universe_accessor_get,
    universe_accessor_update.
  run_steps.
  assert (Htotal : forall defs, exists b, isin defs (definition_matches p) = Ok b).
  { induction defs as [|d defs [b' IH]]; simpl; [eauto|].
    destruct (sd_conId d =? conId (contract p)); eauto. }
  destruct (Htotal (default [] (ua !! portfolio_name))) as [present ->].
  destruct present; cbv [negb]; [discriminate|].
  match goal with
  | |- context [env_contract_details env ?n (contract p)] =>
      destruct (env_contract_details env n (contract p)) as [ds|e'] eqn:Hds
  end.
  2:{ intros H. injection H as <-. right. left. eauto. }
  assert (Hkeys : forall ks b',
            isin ks (subscription_matches p) = Raise b' -> b' = AttributeError).
  { induction ks as [|[s|] ks IH]; simpl; intros b' H; try discriminate.
    - destruct (sd_conId s =? conId (contract p)); [discriminate | eauto].
    - injection H as <-. reflexivity. }
  destruct (isin (keys ms) (subscription_matches p)) as [[|]|e'] eqn:Hsub;
    cbv [negb]; try discriminate.
  - match goal with
    | |- context [env_subscribe_history env ?n (contract p)] =>
        destruct (env_subscribe_history env n (contract p)) as [[]|e''] eqn:Hh
    end; [discriminate|].
    intros H. injection H as <-. right. right. eauto.
  - intros H. injection H as <-. left. eapply Hkeys. exact Hsub.
Qed.

Lemma succeeds_on_item (env : Env) (athrow : exn -> frame -> M frame)
    (fr : frame) (p : PortfolioItem) :
  never_suspends env ->
  (forall ex fr', succeeds (athrow ex fr')) ->
  succeeds (cached_observer_asend (update_portfolio env) athrow true fr p).
Proof.
  intros [Hd Hh] Ht t. unfold cached_observer_asend, try_except.
  unfold bind at 1.
  destruct (update_portfolio env p t) as [[[]|e] t1] eqn:Hup; [reflexivity|].
  cbn [fst snd].
  assert (Hsusp : is_Suspended e = false).
  { unfold update_portfolio, logging, add_portfolio_item in Hup.
    unfold bind at 1 2 in Hup. unfold emit at 1, modify at 1 2 in Hup.
    match type of Hup with
    | update_portfolio_universe env p ?t0 = _ =>
        pose proof (update_portfolio_universe_raises env p t0 e) as Hr;
        rewrite Hup in Hr
    end.
    destruct (Hr eq_refl) as [-> | [[n Hn] | [n Hn]]];
      [reflexivity | exact (Hd _ _ _ Hn) | exact (Hh _ _ _ Hn)]. }
  rewrite Hsusp. apply Ht.
Qed.

(** When the set-up's own calls go through, [setup_subscriptions] on a
    connected link returns, whatever fails in the reconciliation of the
    portfolio items: those failures do not become failures of the set-up. *)
Theorem setup_subscriptions_survives_item_errors (env : Env) (t : Trader) :
  ib_connected t = true ->
  subscriptions_answer env ->
  never_suspends env ->
  fst (setup_subscriptions env t) = Ok tt.
Proof.
  intros Hc (Hb & Hp & Hf & Ho) Hn.
  assert (Hrest : forall locals,
            succeeds (subscribe_and_replay handle_subscription_exception env locals)).
  { intros locals. unfold subscribe_and_replay.
    apply succeeds_bind; [apply succeeds_now | intros n1].
    apply succeeds_bind; [apply succeeds_emit | intros _].
    rewrite Hp.
    apply succeeds_bind; [apply succeeds_lift | intros _].
    apply succeeds_bind; [apply succeeds_now | intros n2].
    apply succeeds_bind; [apply succeeds_emit | intros _].
    rewrite Hf.
    apply succeeds_bind; [apply succeeds_lift | intros _].
    apply succeeds_bind; [apply succeeds_now | intros n3].
    apply succeeds_bind; [apply succeeds_emit | intros _].
    apply succeeds_bind.
    { apply succeeds_for_each_frame. intros fr p.
      apply succeeds_on_item; [exact Hn|].
      intros ex fr' t'. reflexivity. }
    intros locals'.
    apply succeeds_bind; [apply succeeds_gets | intros mode].
    apply succeeds_bind; [apply succeeds_emit | intros _].
    apply succeeds_bind; [apply succeeds_now | intros n4].
    apply succeeds_bind; [apply succeeds_emit | intros _].
    destruct (Ho n4) as [orders ->].
    apply succeeds_bind; [apply succeeds_lift | intros orders'].
    apply succeeds_bind; [|intros _; apply succeeds_ret].
    apply succeeds_for_each. intros o.
    apply succeeds_bind; [apply succeeds_emit | intros _].
    apply succeeds_modify. }
  rewrite (setup_subscriptions_connected env t Hc).
  unfold book_subscribe_to_eventkit_event, bind at 1 2 3, now at 1, emit at 1,
    modify at 1 2, lift at 1.
  rewrite Hb. cbn [fst snd].
  match goal with
  | |- context [subscribe_and_replay ?h env ?l ?t0] =>
      specialize (Hrest l t0);
      destruct (subscribe_and_replay h env l t0) as [[fr|e] t2]
  end; [reflexivity | discriminate].
Qed.

Lemma sample_subscriptions_answer : subscriptions_answer Sample.unresolved_aapl.
Proof. repeat split; intros n; try reflexivity. exists []. reflexivity. Qed.

Lemma sample_never_suspends : never_suspends Sample.unresolved_aapl.
Proof.
  split; intros n c e H; simpl in H.
  - match type of H with
    | context [if ?b then _ else _] => destruct b
    end; discriminate.
  - discriminate.
Qed.

Lemma setup_subscriptions_survives_item_errors_witness :
  fst (setup_subscriptions Sample.unresolved_aapl
         (snd (connect Sample.unresolved_aapl Sample.fresh)))
  = Ok tt.
Proof.
  apply (setup_subscriptions_survives_item_errors Sample.unresolved_aapl
           (snd (connect Sample.unresolved_aapl Sample.fresh))
           eq_refl sample_subscriptions_answer sample_never_suspends).
Defined.

(** The replay writes one [BookAsend] per trade, in the order given, and
    touches the Book only. *)
Lemma for_each_book_asend (orders : list Trade) :
  forall t,
    fst (for_each orders book_asend t) = Ok tt /\
    events (snd (for_each orders book_asend t))
    = events t ++ map BookAsend orders /\
    universe_accessor (snd (for_each orders book_asend t)) = universe_accessor t /\
    market_data_subscriptions (snd (for_each orders book_asend t))
    = market_data_subscriptions t /\
    portfolio (snd (for_each orders book_asend t)) = portfolio t.
Proof.
  induction orders as [|o orders IH]; intros t.
  - simpl. rewrite app_nil_r. repeat split.
  - change (for_each (o :: orders) book_asend t)
      with (for_each orders book_asend (snd (book_asend o t))).
    destruct (IH (snd (book_asend o t))) as (Hr & Hev & Hu & Hs & Hp).
    rewrite Hr, Hev, Hu, Hs, Hp.
    unfold book_asend, bind, emit, modify. unfold_setters.
    rewrite <- app_assoc. repeat split.
Qed.

(** With no item in the gateway's portfolio, a set-up whose calls go
    through makes exactly six calls, in the order of the source, then
    replays every open order in the order the gateway reported them; the
    catalog, the subscription map and the Portfolio are not touched. *)
Theorem setup_subscriptions_empty_portfolio (env : Env) (t : Trader)
    (orders : list Trade) :
  ib_connected t = true ->
  (forall n, env_book_subscribe env n = Ok tt) ->
  (forall n, env_subscribe_positions env n = Ok tt) ->
  (forall n, env_subscribe_portfolio env n = Ok tt) ->
  (forall n, env_ib_portfolio env n = []) ->
  (forall n, env_open_orders env n = Ok orders) ->
  let r := setup_subscriptions env t in
  fst r = Ok tt /\
  events (snd r)
  = events t
    ++ [BookSubscribe; SubscribePositions; SubscribePortfolio; IbPortfolio;
        ReqMarketDataType (market_data t); ReqAllOpenOrders]
    ++ map BookAsend orders /\
  universe_accessor (snd r) = universe_accessor t /\
  market_data_subscriptions (snd r) = market_data_subscriptions t /\
  portfolio (snd r) = portfolio t.
Proof.
  intros Hc Hb Hp Hf Hi Ho. cbv zeta.
  rewrite (setup_subscriptions_connected env t Hc).
  destruct t as [c id us ua cs ms b pf md ck ev].
  unfold book_subscribe_to_eventkit_event, subscribe_and_replay.
  unfold bind, now, emit, modify, lift, gets, ret.
  unfold_setters.
  rewrite Hb. unfold_setters. rewrite Hp. unfold_setters.
  rewrite Hf. unfold_setters. rewrite Hi. cbn [for_each_frame].
  unfold ret. unfold_setters. rewrite Ho.
  match goal with
  | |- context [for_each orders book_asend ?t0] =>
      destruct (for_each_book_asend orders t0) as (Hr & Hev & Hu & Hs & Hpf);
      destruct (for_each orders book_asend t0) as [[[]|e] t1]
  end; cbn [fst snd] in *; try discriminate.
  rewrite Hev, Hu, Hs, Hpf. unfold_setters. rewrite <- !app_assoc.
  repeat split.
Qed.

Lemma setup_subscriptions_empty_portfolio_witness :
  events (snd (setup_subscriptions Sample.refusing Sample.connected))
  = events Sample.connected
    ++ [BookSubscribe; SubscribePositions; SubscribePortfolio; IbPortfolio;
        ReqMarketDataType (market_data Sample.connected); ReqAllOpenOrders]
    ++ map BookAsend [].
Proof.
  apply (setup_subscriptions_empty_portfolio Sample.refusing Sample.connected []);
    intros; reflexivity.
Defined.

(** ** Errors of order entry *)

(** The sizing fails in three ways only: a price of zero raises
    [ZeroDivisionError], a quotient that is not a number raises
    [ValueError], an infinite quotient raises [OverflowError]. *)
Theorem order_quantity_errors (equity_amount latest_bid : float) (x : exn) :
  order_quantity equity_amount latest_bid = Raise x ->
  (x = ZeroDivisionError /\ PrimFloat.eqb latest_bid 0%float = true) \/
  (x = ValueError /\
   Prim2SF (PrimFloat.div equity_amount latest_bid) = S754_nan) \/
  (x = OverflowError /\
   exists s, Prim2SF (PrimFloat.div equity_amount latest_bid) = S754_infinity s).
Proof.
  unfold order_quantity, py_truediv.
  destruct (PrimFloat.eqb latest_bid 0%float).
  - intros H. injection H as <-. left. split; reflexivity.
  - destruct (PrimFloat.ltb _ 1%float && PrimFloat.ltb 0%float _).
    + intros H. vm_compute in H. discriminate.
    + unfold py_round.
      destruct (Prim2SF (PrimFloat.div equity_amount latest_bid)) as [s|s| |s m e];
        intros H; try discriminate; injection H as <-.
      * right. right. split; [reflexivity | eauto].
      * right. left. split; reflexivity.
Qed.

Lemma order_quantity_errors_witness :
  (ZeroDivisionError = ZeroDivisionError /\
   PrimFloat.eqb 0%float 0%float = true) \/
  (ZeroDivisionError = ValueError /\
   Prim2SF (PrimFloat.div 50%float 0%float) = S754_nan) \/
  (ZeroDivisionError = OverflowError /\
   exists s, Prim2SF (PrimFloat.div 50%float 0%float) = S754_infinity s).
Proof.
  apply (order_quantity_errors 50%float 0%float ZeroDivisionError).
  reflexivity.
Defined.

(** A bid that is not a number, as a ticker has before any quote, and a
    notional too large for the price. *)
Example order_quantity_error_samples :
  order_quantity 50%float nan = Raise ValueError /\
  order_quantity 0x1p+1023%float 0x1p-1022%float = Raise OverflowError /\
  order_quantity 50%float (-0)%float = Raise ZeroDivisionError.
Proof. vm_compute. repeat split. Qed.

(** When the price cannot be had or the sizing fails, [temp_handle_order]
    places no order: its only call on the gateway is the request of the
    snapshot.  A request or a price stream that fails raises its error and a
    failed sizing raises the sizing's error; a stream that ends without a
    value raises nothing: the wait of line 281 never returns, which the
    outcome [Raise Suspended] marks, and the caller is left waiting. *)
Theorem temp_handle_order_failures (env : Env) (contract : Contract)
    (action : Action) (equity_amount : float) (delayed debug : bool)
    (t : Trader) :
  let run := temp_handle_order env contract action equity_amount delayed debug t in
  let asked := with_events (events t ++ [SubscribeContract contract true]) t in
  (forall e, env_ticks env (calls (events t)) contract = Raise e ->
             run = (Raise e, asked)) /\
  (forall e rest,
     env_ticks env (calls (events t)) contract = Ok (OnError e :: rest) ->
     run = (Raise e, asked)) /\
  (forall subject,
     env_ticks env (calls (events t)) contract = Ok subject ->
     values (take 1 subject) = [] ->
     (forall e rest, subject <> OnError e :: rest) ->
     run = (Raise Suspended, asked)) /\
  (forall latest_tick rest x,
     env_ticks env (calls (events t)) contract = Ok (OnNext latest_tick :: rest) ->
     order_quantity equity_amount (bid latest_tick) = Raise x ->
     run = (Raise x, asked)).
Proof.
  cbv zeta. destruct t as [c id us ua cs ms b pf md ck ev].
  unfold temp_handle_order, price_snapshot. run_steps.
  repeat split.
  - intros e H. rewrite H. reflexivity.
  - intros e rest H. rewrite H. reflexivity.
  - intros subject H Hv Hne. rewrite H.
    destruct subject as [|[a|e|] rest]; try reflexivity.
    + discriminate.
    + exfalso. exact (Hne e rest eq_refl).
  - intros latest_tick rest x H Hq. rewrite H. cbn [take wait_value].
    rewrite Hq. reflexivity.
Qed.

Lemma temp_handle_order_failures_witness :
  temp_handle_order Sample.refusing Sample.aapl BUY 50%float false false
    Sample.connected
  = (Raise Suspended,
     with_events (events Sample.connected ++ [SubscribeContract Sample.aapl true])
                 Sample.connected).
Proof.
  apply (temp_handle_order_failures Sample.refusing Sample.aapl BUY 50%float
           false false Sample.connected) with (subject := []);
    [reflexivity | reflexivity | intros e rest H; discriminate].
Defined.

(** ** A quotient above zero never gives an empty order *)

Lemma digits2_pos_lower (m : positive) :
  2 ^ (Z.pos (digits2_pos m) - 1) <= Z.pos m.
Proof.
  induction m as [m IH|m IH|]; cbn [digits2_pos];
    try (rewrite Pos2Z.inj_succ;
         replace (Z.succ (Z.pos (digits2_pos m)) - 1)
           with (Z.succ (Z.pos (digits2_pos m) - 1)) by lia;
         rewrite Z.pow_succ_r by lia; lia).
  simpl. lia.
Qed.

Lemma round_half_even_at_least_one (m e : Z) :
  2 ^ 52 <= m -> -52 <= e -> 1 <= round_half_even m e.
Proof.
  intros Hm He. unfold round_half_even.
  destruct (0 <=? e) eqn:H0.
  - apply Z.leb_le in H0.
    assert (1 <= 2 ^ e) by (apply (Z.pow_le_mono_r 2 0 e); lia).
    assert (0 < 2 ^ 52) by (apply Z.pow_pos_nonneg; lia). nia.
  - apply Z.leb_gt in H0.
    assert (Hd : 0 < 2 ^ (- e)) by (apply Z.pow_pos_nonneg; lia).
    assert (Hle : 2 ^ (- e) <= 2 ^ 52) by (apply Z.pow_le_mono_r; lia).
    assert (Hq : 1 <= m / 2 ^ (- e)) by (apply Z.div_le_lower_bound; lia).
    destruct (2 * (m mod 2 ^ (- e)) ?= 2 ^ (- e)); [|lia|lia].
    destruct (Z.even (m / 2 ^ (- e))); lia.
Qed.

(** A float of the format that is not below 1 rounds to at least 1. *)
Lemma round_not_below_one (m : positive) (e : Z) :
  valid_binary (S754_finite false m e) = true ->
  SFltb (S754_finite false m e) (S754_finite false 4503599627370496 (-52))
  = false ->
  1 <= round_half_even (Z.pos m) e.
Proof.
  intros Hvalid Hlt. unfold SFltb, SFcompare in Hlt.
  destruct (Z.compare_spec e (-52)) as [He|He|He].
  - apply round_half_even_at_least_one; [|clear - He; lia].
    pose proof (Pos.compare_spec m 4503599627370496) as Hs.
    unfold Pos.compare in Hs.
    assert (Hpow : 2 ^ 52 = Z.pos 4503599627370496) by reflexivity.
    rewrite Hpow.
    destruct Hs as [Hc|Hc|Hc]; [| discriminate Hlt |].
    + rewrite Hc. apply Z.le_refl.
    + clear - Hc. lia.
  - discriminate Hlt.
  - apply round_half_even_at_least_one; [|clear - He; lia].
    unfold SpecFloat.valid_binary, bounded, canonical_mantissa in Hvalid.
    apply andb_prop in Hvalid as [Hcanon _]. apply Z.eqb_eq in Hcanon.
    unfold fexp, SpecFloat.emin in Hcanon.
    change (3 - emax - prec) with (-1074) in Hcanon.
    change prec with 53 in Hcanon.
    pose proof (digits2_pos_lower m) as Hdig.
    assert (Z.pos (digits2_pos m) = 53) as Hd by (clear - Hcanon He; lia).
    rewrite Hd in Hdig. exact Hdig.
Qed.

(** When the quotient that line 286 computes is above zero and the sizing
    returns, the order is of at least one unit: below 1 the rule of lines
    288-289 gives 1, from 1 on the rounding gives at least 1.  The condition
    is on the computed quotient, not on its operands: see
    [order_quantity_zero_quotient]. *)
Theorem order_quantity_positive (equity_amount latest_bid : float) (n : Z) :
  PrimFloat.ltb 0%float (PrimFloat.div equity_amount latest_bid) = true ->
  order_quantity equity_amount latest_bid = Ok n ->
  1 <= n.
Proof.
  intros Hpos. unfold order_quantity, py_truediv.
  destruct (PrimFloat.eqb latest_bid 0%float); [discriminate|].
  rewrite Hpos, andb_true_r.
  destruct (PrimFloat.ltb (PrimFloat.div equity_amount latest_bid) 1%float)
    eqn:Hone.
  - intros H. vm_compute in H. injection H as <-. lia.
  - rewrite ltb_spec in Hpos, Hone.
    pose proof (Prim2SF_valid (PrimFloat.div equity_amount latest_bid)) as Hvalid.
    change (Prim2SF 0%float) with (S754_zero false) in Hpos.
    change (Prim2SF 1%float)
      with (S754_finite false 4503599627370496 (-52)) in Hone.
    unfold py_round.
    destruct (Prim2SF (PrimFloat.div equity_amount latest_bid)) as [s|s| |s m e];
      try discriminate Hpos.
    + destruct s; [discriminate Hpos|]. discriminate.
    + destruct s; [discriminate Hpos|].
      intros H. injection H as <-.
      apply round_not_below_one; assumption.
Qed.

Lemma order_quantity_positive_witness : 1 <= 4.
Proof.
  apply (order_quantity_positive 350%float 100%float 4); reflexivity.
Defined.

(** A positive notional at a positive price may still give a quotient of
    zero, and then a quantity of zero: the smallest positive float halved
    rounds to zero, and any amount at an infinite price is zero. *)
Example order_quantity_zero_quotient :
  PrimFloat.ltb 0%float 0x1p-1074%float = true /\
  PrimFloat.ltb 0%float 2%float = true /\
  PrimFloat.ltb 0%float (PrimFloat.div 0x1p-1074%float 2%float) = false /\
  order_quantity 0x1p-1074%float 2%float = Ok 0 /\
  PrimFloat.ltb 0%float (PrimFloat.div 50%float infinity) = false /\
  order_quantity 50%float infinity = Ok 0.
Proof. vm_compute. repeat split. Qed.

(** ** What [connect] leaves of the session *)

Lemma retry_exception_same_ledgers (env : Env) (remaining : nat) :
  forall (tries : nat) (start : Z) (t : Trader),
    same_ledgers t (snd (retry_exception env connect_body remaining tries start t)).
Proof.
  induction remaining as [|remaining IH]; intros tries start t;
    cbn [retry_exception]; rewrite connect_body_cases;
    destruct (env_store_connect env (calls (events t) + 1)) as [[]|e1];
    try destruct (env_client_connect env (calls (events t) + 3)) as [[]|e2];
    repeat match goal with
           | |- context [is_ConnectionRefusedError ?e] =>
               destruct (is_ConnectionRefusedError e)
           | |- context [max_time <=? ?x] => destruct (max_time <=? x)
           end;
    try (split; reflexivity).
  all: match goal with
       | |- context [sleep ?s ?t0] =>
           destruct (IH (S tries) start (sleep s t0)) as [Hb Hp]
       end; split; [rewrite Hb | rewrite Hp]; reflexivity.
Qed.

(** [connect] never writes the Book or the Portfolio, however many attempts
    it makes and however it ends; a reconnect through [disconnected_event]
    therefore finds every order the Book held before the link went down. *)
Theorem connect_keeps_ledgers (env : Env) (t : Trader) :
  same_ledgers t (snd (connect env t)) /\
  same_ledgers t (snd (disconnected_event env t)) /\
  (forall order_id,
     book_get_order (book (snd (disconnected_event env t))) order_id
     = book_get_order (book t) order_id).
Proof.
  assert (Hc : forall t0, same_ledgers t0 (snd (connect env t0))).
  { intros t0. apply retry_exception_same_ledgers. }
  assert (Hd : same_ledgers t (snd (disconnected_event env t))).
  { unfold disconnected_event, bind, logging, emit, modify. cbn [fst snd].
    destruct (Hc (with_events
                    (events t ++ [Log (LogDebug "disconnected_event")]) t))
      as [Hb Hp].
    split; [rewrite Hb | rewrite Hp]; reflexivity. }
  split; [apply Hc|]. split; [exact Hd|].
  intros order_id. destruct Hd as [-> _]. reflexivity.
Qed.

Section RefusedState.

Variable env : Env.
Hypothesis store_answers : forall n, env_store_connect env n = Ok tt.
Hypothesis always_refuses :
  forall n, env_client_connect env n = Raise ConnectionRefusedError.

Lemma retry_exception_refused_state (remaining : nat) :
  forall (tries : nat) (start : Z) (t : Trader),
    exists t0,
      snd (retry_exception env connect_body remaining tries start t)
      = attempted env t0.
Proof.
  induction remaining as [|remaining IH]; intros tries start t;
    cbn [retry_exception];
    rewrite (connect_body_refused env store_answers always_refuses);
    cbn [is_ConnectionRefusedError].
  - exists t. reflexivity.
  - destruct (max_time <=? clock t - start); [exists t; reflexivity|].
    apply IH.
Qed.

End RefusedState.

(** A [connect] that gives up against a refusing gateway leaves the session
    not connected, with the "portfolio" universe cleared in the store and
    both subscription maps empty; a set-up tried on it raises
    [ConnectionError] and changes nothing. *)
Theorem connect_refused_state (env : Env) (t : Trader) :
  (forall n, env_store_connect env n = Ok tt) ->
  (forall n, env_client_connect env n = Raise ConnectionRefusedError) ->
  let t' := snd (connect env t) in
  ib_connected t' = false /\
  universe_accessor t' !! portfolio_name = Some [] /\
  market_data_subscriptions t' = [] /\
  contract_subscriptions t' = [] /\
  setup_subscriptions env t' = (Raise ConnectionError, t').
Proof.
  intros Hstore Hrefuse t'.
  destruct (retry_exception_refused_state env Hstore Hrefuse (max_tries - 1) 1
              (clock t) t) as [t0 Ht0].
  assert (Ht' : t' = attempted env t0) by exact Ht0.
  rewrite Ht'. split; [reflexivity|]. split.
  { cbn [attempted universe_accessor]. apply lookup_insert_eq. }
  split; [reflexivity|]. split; [reflexivity|].
  apply not_connected_raises. reflexivity.
Qed.

Lemma connect_refused_state_witness :
  let t' := snd (connect Sample.refusing Sample.connected) in
  ib_connected t' = false /\
  universe_accessor t' !! portfolio_name = Some [] /\
  market_data_subscriptions t' = [] /\
  contract_subscriptions t' = [] /\
  setup_subscriptions Sample.refusing t' = (Raise ConnectionError, t').
Proof.
  apply (connect_refused_state Sample.refusing Sample.connected);
    intros n; reflexivity.
Defined.

(** A first refusal is always retried: when the second attempt is accepted,
    [connect] returns after two attempts and one wait of at most a second,
    with the link connected. *)
Theorem connect_retries_first_refusal (env : Env) (t : Trader) :
  (forall n, env_store_connect env n = Ok tt) ->
  env_client_connect env (calls (events t) + 3) = Raise ConnectionRefusedError ->
  env_client_connect env (calls (events t) + 8) = Ok tt ->
  exists wait,
    0 <= wait <= 1000 /\
    fst (connect env t) = Ok tt /\
    events (snd (connect env t))
    = events t ++ attempt_events ++ [Sleep wait] ++ attempt_events /\
    ib_connected (snd (connect env t)) = true.
Proof.
  intros Hstore Hrefused Haccepted.
  unfold connect. change (max_tries - 1)%nat with 9%nat.
  cbn [retry_exception]. rewrite connect_body_cases, Hstore, Hrefused.
  cbn [is_ConnectionRefusedError]. rewrite Z.sub_diag.
  change (max_time <=? 0) with false. cbv iota.
  set (wait := Z.min _ _).
  assert (Hwait : 0 <= wait <= 1000).
  { pose proof (full_jitter_bounds env (calls (events (attempted env t))) 0).
    unfold wait. change (1 - 1)%nat with 0%nat.
    change (expo 0) with 1000 in *. unfold max_time. lia. }
  exists wait. split; [exact Hwait|].
  rewrite connect_body_cases, Hstore.
  assert (Htime : (calls (events (sleep wait (attempted env t))) + 3
                   = calls (events t) + 8)%nat).
  { unfold sleep, attempted. unfold_setters. rewrite !calls_app.
    change (calls attempt_events) with 4%nat.
    change (calls [Sleep wait]) with 1%nat. lia. }
  rewrite Htime, Haccepted. cbn [fst snd].
  split; [reflexivity|]. split; [|reflexivity].
  unfold sleep, attempted, with_ib_connected. unfold_setters.
  rewrite <- !app_assoc. reflexivity.
Qed.

Lemma connect_retries_first_refusal_witness :
  exists wait,
    0 <= wait <= 1000 /\
    fst (connect refusing_once Sample.fresh) = Ok tt /\
    events (snd (connect refusing_once Sample.fresh))
    = events Sample.fresh ++ attempt_events ++ [Sleep wait] ++ attempt_events /\
    ib_connected (snd (connect refusing_once Sample.fresh)) = true.
Proof.
  apply (connect_retries_first_refusal refusing_once Sample.fresh);
    [intros n; reflexivity | reflexivity | reflexivity].
Defined.

Lemma connected_event_state (env : Env) (t : Trader) :
  snd (connected_event env t)
  = snd (setup_subscriptions env
           (with_events (events t ++ [Log (LogDebug "connected_event")]) t)).
Proof. reflexivity. Qed.

Lemma within_setup_subscriptions (env : Env) :
  stable keeps_subscribed_within (setup_subscriptions env).
Proof.
  apply (stable_setup_subscriptions keeps_subscribed_within); try within_side.
  exact (within_update_portfolio_universe env).
Qed.

(** A start of the session, [connect] and then the connected event, ends
    in a consistent state whatever the store and the session held before:
    at most one universe entry and one subscription per stable key, and
    every subscription within the universe. *)
Theorem startup_consistent (env : Env) (t : Trader) :
  resolves_faithfully env ->
  fst (connect env t) = Ok tt ->
  consistent (snd (startup env t)) /\
  subscribed_within_universe (snd (startup env t)).
Proof.
  intros Hfaithful Hok.
  pose proof (connect_consistent env t Hok) as Hcons.
  destruct (connect_cleared env t Hok) as (_ & _ & Hsubs & _).
  unfold startup, bind.
  destruct (connect env t) as [[[]|e] t1]; cbn [fst snd] in *;
    [|discriminate].
  rewrite connected_event_state. split.
  - apply (consistent_setup_subscriptions env Hfaithful). exact Hcons.
  - apply within_setup_subscriptions. intros s Hin. cbn in Hin.
    rewrite Hsubs in Hin. destruct Hin.
Qed.

Lemma startup_consistent_witness :
  consistent (snd (startup Sample.gateway Sample.connected)) /\
  subscribed_within_universe (snd (startup Sample.gateway Sample.connected)).
Proof.
  apply (startup_consistent Sample.gateway Sample.connected
           sample_gateway_resolves_faithfully).
  reflexivity.
Defined.

(** ** The [universes] attribute *)

Lemma same_universes_refl (t : Trader) : same_universes t t.
Proof. reflexivity. Qed.

Lemma same_universes_trans (t1 t2 t3 : Trader) :
  same_universes t1 t2 -> same_universes t2 t3 -> same_universes t1 t3.
Proof. unfold same_universes. intros H1 H2. rewrite H2. exact H1. Qed.

Ltac universes_side :=
  first [ exact same_universes_refl | exact same_universes_trans
        | assumption | intros; reflexivity ].

Lemma same_universes_update_portfolio_universe (env : Env) (p : PortfolioItem) :
  stable same_universes (update_portfolio_universe env p).
Proof.
  apply stable_update_portfolio_universe_writes; universes_side.
Qed.

(** [get_universes] answers with what [connect] read from the store before
    it cleared the "portfolio" universe: after a [connect] accepted at the
    first attempt it still lists the portfolio entries of the session
    before, which the store no longer has; and no reconciliation and no
    set-up ever updates it. *)
Theorem get_universes_is_a_snapshot (env : Env) (t : Trader) :
  (env_store_connect env (calls (events t) + 1) = Ok tt ->
   env_client_connect env (calls (events t) + 3) = Ok tt ->
   get_universes (snd (connect env t))
   = (Ok (universe_accessor t), snd (connect env t)) /\
   universe_accessor (snd (connect env t))
   = <[portfolio_name := []]> (universe_accessor t)) /\
  (forall items locals,
     universes (snd (feed_portfolio_items env items locals t)) = universes t) /\
  universes (snd (setup_subscriptions env t)) = universes t.
Proof.
  split; [|split].
  - intros Hstore Hclient. unfold connect.
    change (max_tries - 1)%nat with 9%nat. cbn [retry_exception].
    rewrite connect_body_cases, Hstore, Hclient. split; reflexivity.
  - intros items locals.
    apply (stable_feed_portfolio_items same_universes); try universes_side.
    exact (same_universes_update_portfolio_universe env).
  - apply (stable_setup_subscriptions same_universes); try universes_side.
    exact (same_universes_update_portfolio_universe env).
Qed.

Lemma get_universes_is_a_snapshot_witness :
  get_universes (snd (connect Sample.gateway Sample.connected))
  = (Ok (universe_accessor Sample.connected),
     snd (connect Sample.gateway Sample.connected)) /\
  universe_accessor (snd (connect Sample.gateway Sample.connected))
  = <[portfolio_name := []]> (universe_accessor Sample.connected).
Proof.
  apply (get_universes_is_a_snapshot Sample.gateway Sample.connected);
    reflexivity.
Defined.

(** ** Cancelling again *)

Lemma cancel_order_same_attributes (env : Env) (order_id : Z) (t : Trader) :
  same_attributes t (snd (cancel_order env order_id t)).
Proof.
  unfold same_attributes, cancel_order, bind, gets, logging, emit, modify, now,
    ret.
  destruct (book_get_order (book t) order_id) as [o|]; [|reflexivity].
  destruct (clientId o =? client_id_counter t); reflexivity.
Qed.

Lemma same_attributes_book (t t' : Trader) :
  same_attributes t t' ->
  book t' = book t /\ client_id_counter t' = client_id_counter t.
Proof.
  unfold same_attributes. intros H. split.
  - exact (f_equal book (eq_sym H)).
  - exact (f_equal client_id_counter (eq_sym H)).
Qed.

(** [cancel_order] writes nothing to the session but its trace: the order
    stays in the Book as it was, and cancelling the same owned order again
    sends a second [cancelOrder] to the gateway. *)
Theorem cancel_order_repeated (env : Env) (order_id : Z) (t : Trader)
    (o : Order) :
  book_get_order (book t) order_id = Some o ->
  clientId o = client_id_counter t ->
  let t1 := snd (cancel_order env order_id t) in
  let t2 := snd (cancel_order env order_id t1) in
  same_attributes t t1 /\
  book_get_order (book t1) order_id = Some o /\
  gateway_calls (events t2)
  = gateway_calls (events t) ++ [CancelOrder o; CancelOrder o].
Proof.
  intros Hget Hown t1 t2.
  pose proof (cancel_order_same_attributes env order_id t) as Hsame.
  destruct (same_attributes_book _ _ Hsame) as [Hbook Hid].
  fold t1 in Hsame, Hbook, Hid.
  assert (Hget1 : book_get_order (book t1) order_id = Some o)
    by (rewrite Hbook; exact Hget).
  assert (Hown1 : clientId o = client_id_counter t1)
    by (rewrite Hid; exact Hown).
  split; [exact Hsame|]. split; [exact Hget1|].
  destruct (cancel_order_owned env order_id t o Hget Hown) as [_ Hc1].
  destruct (cancel_order_owned env order_id t1 o Hget1 Hown1) as [_ Hc2].
  unfold t2. rewrite Hc2. unfold t1. rewrite Hc1, <- app_assoc. reflexivity.
Qed.

Lemma cancel_order_repeated_witness :
  let t1 := snd (cancel_order Sample.gateway 11 Sample.connected) in
  let t2 := snd (cancel_order Sample.gateway 11 t1) in
  same_attributes Sample.connected t1 /\
  book_get_order (book t1) 11 = Some (Sample.an_order 11 7) /\
  gateway_calls (events t2)
  = gateway_calls (events Sample.connected)
    ++ [CancelOrder (Sample.an_order 11 7); CancelOrder (Sample.an_order 11 7)].
Proof.
  apply (cancel_order_repeated Sample.gateway 11 Sample.connected
           (Sample.an_order 11 7)); reflexivity.
Defined.

(** ** The Portfolio ledger *)

Lemma same_portfolio_update_portfolio_universe (env : Env) (p : PortfolioItem) :
  stable (fun t t' => portfolio t' = portfolio t)
         (update_portfolio_universe env p).
Proof.
  apply stable_update_portfolio_universe_writes;
    first [ (intros ? ? ? H1 H2; rewrite H2; exact H1)
          | intros; reflexivity ].
Qed.

(** One delivery records the item, whether its reconciliation returns or
    raises. *)
Lemma on_portfolio_item_ledger (env : Env) (locals : frame) (p : PortfolioItem)
    (t : Trader) :
  portfolio (snd (on_portfolio_item env locals p t))
  = {| positions := positions (portfolio t);
       portfolio_items := portfolio_items (portfolio t) ++ [p] |}.
Proof.
  unfold on_portfolio_item, cached_observer_asend, try_except, update_portfolio,
    add_portfolio_item, logging.
  unfold bind at 1 2 3. unfold emit at 1, modify at 1 2. cbn [fst snd].
  match goal with
  | |- context [update_portfolio_universe env p ?t0] =>
      pose proof (same_portfolio_update_portfolio_universe env p t0) as Hsame;
      destruct (update_portfolio_universe env p t0) as [[[]|e] t1]
  end; cbn [fst snd] in *.
  - exact Hsame.
  - destruct (is_Suspended e); cbn [snd]; exact Hsame.
Qed.

(** Every item delivered on the portfolio stream is recorded in the
    Portfolio, in the order of arrival, the items whose reconciliation
    fails included; the positions are not touched. *)
Theorem every_item_reaches_the_ledger (env : Env) (items : list PortfolioItem) :
  never_suspends env ->
  forall (locals : frame) (t : Trader),
    fst (feed_portfolio_items env items locals t) = Ok locals /\
    portfolio (snd (feed_portfolio_items env items locals t))
    = {| positions := positions (portfolio t);
         portfolio_items := portfolio_items (portfolio t) ++ items |}.
Proof.
  intros Hn. induction items as [|p items IH]; intros locals t.
  - cbn. rewrite app_nil_r. destruct (portfolio t). split; reflexivity.
  - unfold feed_portfolio_items in *. cbn [for_each_frame]. unfold bind.
    pose proof (on_portfolio_item_ledger env locals p t) as Hledger.
    pose proof (succeeds_on_item env handle_subscription_exception locals p Hn
                  (fun ex fr' t' => eq_refl) t) as Hok.
    pose proof (cached_observer_asend_returns (update_portfolio env)
                  handle_subscription_exception true
                  (fun ex fr t0 fr' (H : fst (handle_subscription_exception ex fr t0) = Ok fr') =>
                     eq_sym (f_equal (fun o => match o with Ok x => x | Raise _ => fr end) H))
                  locals p t) as Hfr.
    unfold on_portfolio_item in *.
    destruct (cached_observer_asend (update_portfolio env)
                handle_subscription_exception true locals p t)
      as [[fr|e] t1]; cbn [fst snd] in *; [|discriminate].
    rewrite (Hfr fr eq_refl).
    destruct (IH locals t1) as [Hr Hp]. split; [exact Hr|].
    rewrite Hp, Hledger. cbn [positions portfolio_items].
    rewrite <- app_assoc. reflexivity.
Qed.

Lemma every_item_reaches_the_ledger_witness :
  portfolio_items
    (portfolio (snd (feed_portfolio_items Sample.unresolved_aapl
                       [Sample.item Sample.aapl 1; Sample.item Sample.msft 2]
                       {["error" := false]} Sample.connected)))
  = [Sample.item Sample.aapl 1; Sample.item Sample.msft 2].
Proof.
  pose proof (every_item_reaches_the_ledger Sample.unresolved_aapl
                [Sample.item Sample.aapl 1; Sample.item Sample.msft 2]
                sample_never_suspends {["error" := false]} Sample.connected)
    as [_ H].
  rewrite H. reflexivity.
Defined.

(** ** The limit price under [debug] *)

(** With [debug] on, a buy is priced at the bid times 0.9 and times 0.9
    again, a sell at the bid times 1.1 once, each rounded to two digits: the
    two directions are not moved by the same share. *)
Theorem temp_handle_order_debug_price (env : Env) (contract : Contract)
    (action : Action) (equity_amount : float) (delayed : bool) (t : Trader)
    (latest_tick : Ticker) (rest : list (notification Ticker))
    (quantity_int : Z) :
  env_ticks env (calls (events t)) contract = Ok (OnNext latest_tick :: rest) ->
  order_quantity equity_amount (bid latest_tick) = Ok quantity_int ->
  placed_orders
    (events (snd (temp_handle_order env contract action equity_amount delayed
                    true t)))
  = placed_orders (events t)
    ++ [LimitOrder (Action_str action) quantity_int
          match action with
          | BUY => env_round2 env
                     (PrimFloat.mul (PrimFloat.mul (bid latest_tick) f0_9) f0_9)
          | SELL => env_round2 env (PrimFloat.mul (bid latest_tick) f1_1)
          end].
Proof.
  intros Hticks Hq. destruct t as [c id us ua cs ms b pf md ck ev].
  cbn [events] in *.
  unfold temp_handle_order, price_snapshot, temp_place_order. run_steps.
  rewrite Hticks. cbn [take wait_value]. rewrite Hq.
  unfold placed_orders. rewrite !omap_app.
  destruct action; cbn; rewrite !app_nil_r; reflexivity.
Qed.

(** ** The instruments of a sequence of items *)

Lemma isin_definition_existsb (p : PortfolioItem)
    (defs : list SecurityDefinition) :
  isin defs (definition_matches p)
  = Ok (existsb (fun x => x =? conId (contract p)) (map sd_conId defs)).
Proof.
  induction defs as [|d defs IH]; [reflexivity|]. simpl.
  destruct (sd_conId d =? conId (contract p)); [reflexivity | exact IH].
Qed.

Lemma isin_subscription_existsb (p : PortfolioItem)
    (ks : list (option SecurityDefinition)) :
  ~ In None ks ->
  isin ks (subscription_matches p)
  = Ok (existsb (fun x => x =? conId (contract p)) (omap (fmap sd_conId) ks)).
Proof.
  induction ks as [|[k|] ks IH]; intros Hnone; [reflexivity| |].
  - simpl. destruct (sd_conId k =? conId (contract p)); [reflexivity|].
    apply IH. intros H. apply Hnone. right. exact H.
  - exfalso. apply Hnone. left. reflexivity.
Qed.

Lemma find_contract_snoc (defs : list SecurityDefinition)
    (d : SecurityDefinition) (c : Contract) :
  existsb (fun x => x =? conId c) (map sd_conId defs) = false ->
  sd_conId d = conId c ->
  find_contract (defs ++ [d]) c = Some d.
Proof.
  intros Hnot Hd. unfold find_contract.
  induction defs as [|d' defs IH]; simpl in *.
  - rewrite Hd, Z.eqb_refl. reflexivity.
  - apply orb_false_elim in Hnot as [Hd' Hrest]. rewrite Hd'. exact (IH Hrest).
Qed.

Lemma keys_dict_set_fresh {K V} (key_eqb : K -> K -> bool) (k : K) (v : V)
    (d : list (K * V)) :
  (forall k', In k' (keys d) -> key_eqb k' k = false) ->
  keys (dict_set key_eqb k v d) = keys d ++ [k].
Proof.
  unfold keys. induction d as [|[k' v'] d IH]; intros Hfresh; [reflexivity|].
  simpl. rewrite (Hfresh k' (or_introl eq_refl)). simpl. f_equal.
  apply IH. intros k'' Hin. apply Hfresh. right. exact Hin.
Qed.

(** The reconciliation of an item the universe does not hold, when the
    gateway resolves it and opens its stream. *)
Lemma reconcile_new_item (env : Env) (p : PortfolioItem) (t : Trader)
    (d : ContractDetails) (rest : list ContractDetails) :
  isin (portfolio_universe t) (definition_matches p) = Ok false ->
  env_contract_details env (calls (events t) + 1) (contract p) = Ok (d :: rest) ->
  isin (keys (market_data_subscriptions t)) (subscription_matches p) = Ok false ->
  env_subscribe_history env (calls (events t) + 3) (contract p) = Ok tt ->
  let t' := snd (update_portfolio_universe env p t) in
  fst (update_portfolio_universe env p t) = Ok tt /\
  portfolio_universe t' = portfolio_universe t ++ [from_contract_details d] /\
  exists stream,
    market_data_subscriptions t'
    = dict_set (env_key_eqb env)
        (find_contract (portfolio_universe t ++ [from_contract_details d])
                       (contract p))
        stream (market_data_subscriptions t).
Proof.
  intros Hin Hds Hsub Hh. cbv zeta.
  destruct t as [c id us ua cs ms b pf md ck ev].
  unfold portfolio_universe in *.
  cbn [universe_accessor events market_data_subscriptions] in *.
  unfold update_portfolio_universe, universe_accessor_get,
    universe_accessor_update.
  run_steps. rewrite Hin. cbv [negb].
  rewrite calls_app. calls_of_events. rewrite Hds, Hsub. cbv [negb].
  rewrite !calls_app. calls_of_events.
  replace (calls ev + 1 + 1 + 0 + 1 + 0)%nat with (calls ev + 3)%nat by lia.
  rewrite Hh.
  cbn [fst snd universe_accessor market_data_subscriptions].
  rewrite lookup_insert_eq.
  split; [reflexivity|]. split; [reflexivity|]. eexists. reflexivity.
Qed.

(** One delivery on the portfolio stream, case by case. *)
Lemma on_portfolio_item_cases (env : Env) (locals : frame) (p : PortfolioItem)
    (t : Trader) :
  on_portfolio_item env locals p t
  = let recorded :=
      with_portfolio
        {| positions := positions (portfolio t);
           portfolio_items := portfolio_items (portfolio t) ++ [p] |}
        (with_events (events t ++ [Log (LogDebug "__update_portfolio")]) t) in
    match update_portfolio_universe env p recorded with
    | (Ok _, t1) => (Ok locals, t1)
    | (Raise e, t1) =>
        if is_Suspended e then (Raise e, t1)
        else (Ok locals, with_events (events t1 ++ [Log (LogException e)]) t1)
    end.
Proof.
  unfold on_portfolio_item, cached_observer_asend, try_except, update_portfolio,
    add_portfolio_item, logging, handle_subscription_exception.
  unfold bind at 1 2 3. unfold emit at 1, modify at 1 2. cbn [fst snd].
  cbv zeta.
  destruct (update_portfolio_universe env p _) as [[[]|e] t1]; [reflexivity|].
  destruct (is_Suspended e); reflexivity.
Qed.

Section Served.

Variable env : Env.
Hypothesis served : serves_everything env.

Lemma in_step_update_portfolio_universe (p : PortfolioItem) (ids : list Z)
    (t : Trader) :
  in_step ids t ->
  fst (update_portfolio_universe env p t) = Ok tt /\
  in_step (add_key ids (conId (contract p)))
          (snd (update_portfolio_universe env p t)).
Proof.
  intros (Hu & Hnone & Hs).
  destruct served as (Hresolve & Hhistory & Hkeys).
  pose proof (isin_definition_existsb p (portfolio_universe t)) as Hin.
  fold (universe_conIds t) in Hin. rewrite Hu in Hin.
  unfold add_key.
  destruct (existsb (fun x => x =? conId (contract p)) ids) eqn:Hknown.
  - rewrite (known_item_reads_only env p t Hin). split; [reflexivity|].
    repeat split; assumption.
  - destruct (Hresolve (calls (events t) + 1)%nat (contract p))
      as (d & rest & Hds & Hd).
    pose proof (isin_subscription_existsb p _ Hnone) as Hsub.
    fold (subscription_conIds t) in Hsub. rewrite Hs, Hknown in Hsub.
    destruct (reconcile_new_item env p t d rest Hin Hds Hsub (Hhistory _ _))
      as (Hr & Hu' & stream & Hs').
    cbv zeta in *. split; [exact Hr|].
    assert (Hfind : find_contract
                      (portfolio_universe t ++ [from_contract_details d])
                      (contract p)
                    = Some (from_contract_details d)).
    { apply find_contract_snoc; [|exact Hd].
      fold (universe_conIds t). rewrite Hu. exact Hknown. }
    rewrite Hfind in Hs'.
    assert (Hkeys' : keys (market_data_subscriptions
                             (snd (update_portfolio_universe env p t)))
                     = keys (market_data_subscriptions t)
                       ++ [Some (from_contract_details d)]).
    { rewrite Hs'. apply keys_dict_set_fresh. intros k' Hin'.
      destruct (env_key_eqb env k' (Some (from_contract_details d))) eqn:Heq;
        [|reflexivity].
      exfalso. apply Hkeys in Heq. subst k'.
      assert (Hc : In (conId (contract p)) (subscription_conIds t)).
      { unfold subscription_conIds. apply list_elem_of_In.
        apply list_elem_of_omap. exists (Some (from_contract_details d)).
        split; [apply list_elem_of_In; exact Hin'|]. simpl. rewrite Hd.
        reflexivity. }
      rewrite Hs in Hc.
      assert (Hex : existsb (fun x => x =? conId (contract p)) ids = true).
      { apply existsb_exists. exists (conId (contract p)).
        split; [exact Hc | apply Z.eqb_refl]. }
      rewrite Hknown in Hex. discriminate. }
    split; [|split].
    + unfold universe_conIds. rewrite Hu', map_app. simpl.
      fold (universe_conIds t). rewrite Hu, Hd. reflexivity.
    + rewrite Hkeys'. intros Hx. apply in_app_or in Hx.
      destruct Hx as [Hx | [Hx | []]]; [exact (Hnone Hx) | discriminate].
    + unfold subscription_conIds. rewrite Hkeys', omap_app. simpl.
      fold (subscription_conIds t). rewrite Hs, Hd. reflexivity.
Qed.

Lemma in_step_on_portfolio_item (locals : frame) (p : PortfolioItem)
    (ids : list Z) (t : Trader) :
  in_step ids t ->
  fst (on_portfolio_item env locals p t) = Ok locals /\
  in_step (add_key ids (conId (contract p)))
          (snd (on_portfolio_item env locals p t)).
Proof.
  intros Hstep. rewrite on_portfolio_item_cases. cbv zeta.
  match goal with
  | |- context [update_portfolio_universe env p ?t0] =>
      destruct (in_step_update_portfolio_universe p ids t0 Hstep) as [Hr Hs];
      destruct (update_portfolio_universe env p t0) as [[[]|e] t1]
  end; cbn [fst snd] in *; [|discriminate].
  split; [reflexivity | exact Hs].
Qed.

Lemma in_step_feed_portfolio_items (items : list PortfolioItem) :
  forall (locals : frame) (ids : list Z) (t : Trader),
    in_step ids t ->
    fst (feed_portfolio_items env items locals t) = Ok locals /\
    in_step (first_appearances (map (fun p => conId (contract p)) items) ids)
            (snd (feed_portfolio_items env items locals t)).
Proof.
  induction items as [|p items IH]; intros locals ids t Hstep.
  - split; [reflexivity | exact Hstep].
  - unfold feed_portfolio_items in *. cbn [for_each_frame map]. unfold bind.
    destruct (in_step_on_portfolio_item locals p ids t Hstep) as [Hr Hs].
    destruct (on_portfolio_item env locals p t) as [[fr|e] t1];
      cbn [fst snd] in *; [|discriminate].
    injection Hr as ->. apply IH. exact Hs.
Qed.

End Served.

(** With a gateway that resolves every contract and opens every stream,
    feeding a sequence of items to a session whose universe and
    subscriptions are in step leaves both holding exactly the stable keys of
    the items not seen before, each once, in the order of first appearance;
    no delivery fails. *)
Theorem reconciliation_collects_first_appearances (env : Env)
    (items : list PortfolioItem) (locals : frame) (ids : list Z) (t : Trader) :
  serves_everything env ->
  in_step ids t ->
  let t' := snd (feed_portfolio_items env items locals t) in
  fst (feed_portfolio_items env items locals t) = Ok locals /\
  universe_conIds t'
  = first_appearances (map (fun p => conId (contract p)) items) ids /\
  subscription_conIds t'
  = first_appearances (map (fun p => conId (contract p)) items) ids.
Proof.
  intros Hserved Hstep. cbv zeta.
  destruct (in_step_feed_portfolio_items env Hserved items locals ids t Hstep)
    as (Hr & Hu & _ & Hs).
  repeat split; assumption.
Qed.

Lemma sample_gateway_serves_everything : serves_everything Sample.gateway.
Proof.
  split; [|split].
  - intros n c. exists (Sample.details c), []. split; reflexivity.
  - intros n c. reflexivity.
  - intros [a|] [b|] H; simpl in H; try discriminate; [|reflexivity].
    destruct a as [a1 a2 a3 a4], b as [b1 b2 b3 b4]. simpl in H.
    apply andb_prop in H as [H H4]. apply andb_prop in H as [H H3].
    apply andb_prop in H as [H1 H2].
    apply Z.eqb_eq in H1. apply String.eqb_eq in H2, H3, H4.
    subst. reflexivity.
Qed.

Lemma reconciliation_collects_first_appearances_witness :
  let t := snd (connect Sample.gateway Sample.fresh) in
  let items := [Sample.item Sample.aapl 1; Sample.item Sample.msft 2;
                Sample.item Sample.aapl' 3] in
  let t' := snd (feed_portfolio_items Sample.gateway items {["error" := false]} t) in
  fst (feed_portfolio_items Sample.gateway items {["error" := false]} t)
  = Ok {["error" := false]} /\
  universe_conIds t' = [265598; 272093] /\
  subscription_conIds t' = [265598; 272093].
Proof.
  apply (reconciliation_collects_first_appearances Sample.gateway
           [Sample.item Sample.aapl 1; Sample.item Sample.msft 2;
            Sample.item Sample.aapl' 3]
           {["error" := false]} []
           (snd (connect Sample.gateway Sample.fresh))
           sample_gateway_serves_everything).
  repeat split. intros H. exact H.
Defined.

(** ** Batches of positions *)

Lemma for_each_add_position (batch : list Position) :
  forall t,
    for_each batch add_position t
    = (Ok tt,
       with_portfolio
         {| positions := positions (portfolio t) ++ batch;
            portfolio_items := portfolio_items (portfolio t) |} t).
Proof.
  induction batch as [|p batch IH]; intros t.
  - cbn. rewrite app_nil_r. destruct t as [c id us ua cs ms b [ps pis] md ck ev].
    reflexivity.
  - change (for_each (p :: batch) add_position t)
      with (for_each batch add_position (snd (add_position p t))).
    rewrite IH. unfold add_position, modify. unfold_setters.
    cbn [positions portfolio_items]. rewrite <- app_assoc. reflexivity.
Qed.

(** A batch from the position stream is appended to the Portfolio's
    positions in its order and never fails; unlike a portfolio item it
    reaches neither the gateway nor the catalog nor the subscriptions, and
    an empty batch leaves but a log record. *)
Theorem on_positions_records_batch (locals : frame) (batch : list Position)
    (t : Trader) :
  on_positions locals batch t
  = (Ok locals,
     with_portfolio
       {| positions := positions (portfolio t) ++ batch;
          portfolio_items := portfolio_items (portfolio t) |}
       (with_events (events t ++ [Log (LogDebug "__update_positions")]) t)).
Proof.
  unfold on_positions, cached_observer_asend, try_except, update_positions,
    logging.
  unfold bind at 1 2. unfold emit at 1, modify at 1. cbn [fst snd].
  rewrite for_each_add_position. reflexivity.
Qed.

Lemma temp_handle_order_debug_price_witness :
  placed_orders
    (events (snd (temp_handle_order Sample.gateway Sample.aapl BUY 50%float
                    false true Sample.connected)))
  = placed_orders (events Sample.connected)
    ++ [LimitOrder "BUY" 1
          (env_round2 Sample.gateway
             (PrimFloat.mul (PrimFloat.mul 100%float f0_9) f0_9))].
Proof.
  apply (temp_handle_order_debug_price Sample.gateway Sample.aapl BUY 50%float
           false Sample.connected (Sample.tick Sample.aapl 100)
           [OnNext (Sample.tick Sample.aapl 101)] 1);
    reflexivity.
Defined.
